(** * mlcache: the UCB1 page-cache scoring module (drivers/mlcache/mlcache.c)

    A shallow embedding of the scoring code of the module and the
    properties of it that its design description states.  Machine
    integers are values in [Z] with every conversion written out, the
    kernel objects the module reads and writes ([struct page],
    [struct address_space]) live in finite maps indexed by address, and
    each C function is a function from the machine state to a result
    that is either the next state or a fault. *)

From Stdlib Require Import ZArith Lia Bool List.
From stdpp Require Import base option list gmap fin_maps strings pretty.

Local Open Scope Z_scope.

(** ** Machine integers (LP64, the kernel is built with wrapping signed
       arithmetic: -fno-strict-overflow) *)

Module Int.

Definition to_ulong (z : Z) : Z := z mod 2 ^ 64.
Definition to_long (z : Z) : Z := (z + 2 ^ 63) mod 2 ^ 64 - 2 ^ 63.
Definition to_uint (z : Z) : Z := z mod 2 ^ 32.
Definition to_int (z : Z) : Z := (z + 2 ^ 31) mod 2 ^ 32 - 2 ^ 31.

Definition UINT_MAX : Z := 2 ^ 32 - 1.
Definition LONG_MIN : Z := - 2 ^ 63.
Definition LONG_MAX : Z := 2 ^ 63 - 1.

Definition is_long (z : Z) : Prop := LONG_MIN <= z <= LONG_MAX.
Definition is_int (z : Z) : Prop := - 2 ^ 31 <= z < 2 ^ 31.

End Int.
Import Int.

(** ** Faults and results *)

Inductive fault : Type :=
| BadPointer       (* a pointer that names no object was dereferenced *)
| DivideByZero     (* integer division with divisor 0 *)
| DivideOverflow.  (* LONG_MIN / -1: the quotient is not a long *)

Inductive result (A : Type) : Type :=
| Ok (a : A)
| Fault (f : fault).
Arguments Ok {A} a.
Arguments Fault {A} f.

#[global] Instance result_ret : MRet result := fun A a => Ok a.
#[global] Instance result_bind : MBind result := fun A B k r =>
  match r with
  | Ok a => k a
  | Fault f => Fault f
  end.

(** ** Kernel helpers the module calls *)

Definition MLCACHE_SCALE : Z := 100.

(** Modelled from the spec: [ilog2] of <linux/log2.h> is not part of the
    module's source; the design asks for "an integer log2".  For an
    argument of at most four bytes the kernel computes [fls(n) - 1] on
    the 32-bit pattern: the index of the highest set bit, and -1 for 0. *)
Definition ilog2 (n : Z) : Z :=
  let u := to_uint n in
  if u =? 0 then -1 else Z.log2 u.

(** Modelled from the spec: [int_sqrt] of lib/int_sqrt.c is not part of
    the module's source; the design asks for "an integer square root".
    It takes an unsigned long and returns the floor of its square root. *)
Definition int_sqrt (x : Z) : Z := Z.sqrt x.

(** static unsigned long upperBound(int step, int numPlays) *)
Definition upperBound (step numPlays : Z) : Z :=
  if negb (step =? 0) && negb (numPlays =? 0) then
    int_sqrt
      (to_ulong
         (to_int
            (to_int (MLCACHE_SCALE * MLCACHE_SCALE * 2
                     * ilog2 (to_int (MLCACHE_SCALE * MLCACHE_SCALE * (step + 1))))
             ÷ numPlays)))
  else 0.

(** ** Kernel objects and the module's globals *)

Definition NULL : N := 0%N.

(** Modelled from the spec: the two fields the module keeps in
    [struct page] are declared in the patched <linux/mm_types.h>, which
    is not part of the module's source.  The design calls them "score
    (signed fixed-point number)" and "playCount (non-negative integer)";
    the score is taken as a [long], the type of every value the module
    assigns to it or subtracts from it ([weight_average], [by]).
    [mapping] is the page's pointer to its address space. *)
Record page : Type := Page {
  mapping : N;
  mlcache_score : Z;
  mlcache_plays : Z
}.

(** What one dereference of a radix tree slot shows to a traversal:
    nothing, an exceptional entry (which may be the marker asking to
    look at the slot again), or a page. *)
Inductive slot : Type :=
| SlotEmpty
| SlotException (retry : bool)
| SlotPage (p : N).

(** [page_tree] is the sequence of slot values a traversal with
    [radix_tree_for_each_slot] from index 0 reads, in order; the value
    read again after a retry marker is the next element. *)
Record address_space : Type := AddressSpace {
  page_tree : list slot
}.

Record machine : Type := Machine {
  hits : Z;                (* static unsigned long hits *)
  misses : Z;              (* static unsigned long misses *)
  t : Z;                   (* static unsigned long t *)
  weight_average : Z;      (* static long weight_average *)
  items_in_cache : Z;      (* static long items_in_cache *)
  pages : gmap N page;                 (* the struct pages, by address *)
  spaces : gmap N address_space;       (* the address spaces, by address *)
  proc_entry : N;                      (* /proc/mlcache_stats, or NULL *)
  probe_registered : bool              (* is mlcache_pageget on the tracepoint *)
}.

Definition set_hits (v : Z) (st : machine) : machine :=
  Machine v (misses st) (t st) (weight_average st) (items_in_cache st)
          (pages st) (spaces st) (proc_entry st) (probe_registered st).
Definition set_misses (v : Z) (st : machine) : machine :=
  Machine (hits st) v (t st) (weight_average st) (items_in_cache st)
          (pages st) (spaces st) (proc_entry st) (probe_registered st).
Definition set_t (v : Z) (st : machine) : machine :=
  Machine (hits st) (misses st) v (weight_average st) (items_in_cache st)
          (pages st) (spaces st) (proc_entry st) (probe_registered st).
Definition set_weight_average (v : Z) (st : machine) : machine :=
  Machine (hits st) (misses st) (t st) v (items_in_cache st)
          (pages st) (spaces st) (proc_entry st) (probe_registered st).
Definition set_items_in_cache (v : Z) (st : machine) : machine :=
  Machine (hits st) (misses st) (t st) (weight_average st) v
          (pages st) (spaces st) (proc_entry st) (probe_registered st).
Definition set_pages (m : gmap N page) (st : machine) : machine :=
  Machine (hits st) (misses st) (t st) (weight_average st) (items_in_cache st)
          m (spaces st) (proc_entry st) (probe_registered st).
Definition set_proc_entry (e : N) (st : machine) : machine :=
  Machine (hits st) (misses st) (t st) (weight_average st) (items_in_cache st)
          (pages st) (spaces st) e (probe_registered st).
Definition set_probe_registered (b : bool) (st : machine) : machine :=
  Machine (hits st) (misses st) (t st) (weight_average st) (items_in_cache st)
          (pages st) (spaces st) (proc_entry st) b.

(** Reading [*p] and writing [p->mlcache_score]. *)
Definition load_page (p : N) (st : machine) : result page :=
  match pages st !! p with
  | Some pg => Ok pg
  | None => Fault BadPointer
  end.

Definition load_space (m : N) (st : machine) : result address_space :=
  match spaces st !! m with
  | Some sp => Ok sp
  | None => Fault BadPointer
  end.

Definition with_score (v : Z) (pg : page) : page :=
  Page (mapping pg) v (mlcache_plays pg).

Definition store_score (p : N) (v : Z) (st : machine) : result machine :=
  pg ← load_page p st;
  Ok (set_pages (<[p := with_score v pg]> (pages st)) st).

(** Signed division of two longs, as the [idiv] instruction does it. *)
Definition long_div (a b : Z) : result Z :=
  if b =? 0 then Fault DivideByZero
  else if (a =? LONG_MIN) && (b =? -1) then Fault DivideOverflow
  else Ok (a ÷ b).

(** ** The scoring code *)

(** long get_mlcache_weighted_average() *)
Definition get_mlcache_weighted_average (CONFIG_MLCACHE_ACTIVE : bool)
    (st : machine) : Z :=
  if CONFIG_MLCACHE_ACTIVE then weight_average st else 0.

(** static void update_page_score(struct page *page, long by, bool hit) *)
Definition update_page_score (page : N) (by_ : Z) (hit : bool)
    (st : machine) : result machine :=
  pg ← load_page page st;
  if (mapping pg =? NULL)%N then Ok st
  else if hit then
    (* page->mlcache_score -= by; *)
    st1 ← store_score page (to_long (mlcache_score pg - by_)) st;
    pg1 ← load_page page st1;
    (* score + upperBound(t-1, plays) - upperBound(t, plays) * plays,
       computed in unsigned long and stored into the long *)
    let plays := mlcache_plays pg1 in
    let sum := to_ulong (to_ulong (mlcache_score pg1)
                         + upperBound (to_int (to_ulong (t st1 - 1))) (to_int plays)) in
    let prod := to_ulong (upperBound (to_int (t st1)) (to_int plays)
                          * to_ulong plays) in
    store_score page (to_long (to_ulong (sum - prod))) st1
  else
    let st1 := if weight_average st =? UINT_MAX
               then set_weight_average 0 st else st in
    store_score page (weight_average st1) st1.

(** static void update_average(struct page *page) *)
Definition update_average (page : N) (st : machine) : result machine :=
  let st1 := if items_in_cache st =? 0
             then set_items_in_cache (to_long (to_ulong (Z.lnot 0))) st
             else st in
  pg ← load_page page st1;
  q ← long_div (mlcache_score pg) (items_in_cache st1);
  Ok (set_weight_average (to_long (weight_average st1 + q)) st1).

(** [cond_resched_rcu()] lets other tasks run; it writes nothing that
    the module reads. *)
Definition cond_resched_rcu (st : machine) : machine := st.

(** The loop of [penalize_pages].  [checked] is the local counter of the
    pages handed to [update_page_score]; each time it reaches a multiple
    of 4096 the traversal is resumed at the next slot after
    [cond_resched_rcu()].  The final value of [checked] is returned with
    the state. *)
Fixpoint penalize_pages_loop (tree : list slot) (page : N) (checked : Z)
    (st : machine) : result (Z * machine) :=
  match tree with
  | [] => Ok (checked, st)
  | SlotEmpty :: rest => penalize_pages_loop rest page checked st
  | SlotException _ :: rest => penalize_pages_loop rest page checked st
  | SlotPage p :: rest =>
      pg ← load_page p st;
      if negb (mapping pg =? NULL)%N then
        penalize_pages_loop rest page checked st
      else if (p =? page)%N then
        penalize_pages_loop rest page checked st
      else
        st1 ← update_page_score p (- MLCACHE_SCALE) false st;
        let checked1 := to_uint (checked + 1) in
        if negb (checked1 mod 4096 =? 0) then
          penalize_pages_loop rest page checked1 st1
        else
          penalize_pages_loop rest page checked1 (cond_resched_rcu st1)
  end.

(** static void penalize_pages(struct page *page, struct address_space *mapping) *)
Definition penalize_pages (page mapping_ : N) (st : machine) : result machine :=
  if (mapping_ =? NULL)%N then Ok st
  else
    sp ← load_space mapping_ st;
    '(_, st1) ← penalize_pages_loop (page_tree sp) page 0 st;
    Ok st1.

(** The loop of the miss path of [update_cache_scores].  It returns the
    local flag [penalize] and the counter [checked] with the state; a
    [break] ends the traversal at once. *)
Fixpoint update_cache_scores_loop (tree : list slot) (page : N) (checked : Z)
    (st : machine) : result (bool * Z * machine) :=
  match tree with
  | [] => Ok (false, checked, st)
  | SlotEmpty :: rest => update_cache_scores_loop rest page checked st
  | SlotException _ :: rest => update_cache_scores_loop rest page checked st
  | SlotPage p :: rest =>
      pg ← load_page p st;
      if negb (mapping pg =? NULL)%N then
        update_cache_scores_loop rest page checked st
      else if (p =? page)%N then
        if mlcache_score pg =? 0 then
          st1 ← update_page_score p 0 false st;
          Ok (false, checked, st1)
        else
          Ok (true, checked, st)
      else
        st1 ← update_page_score p (- MLCACHE_SCALE) false st;
        let checked1 := to_uint (checked + 1) in
        if negb (checked1 mod 4096 =? 0) then
          update_cache_scores_loop rest page checked1 st1
        else
          update_cache_scores_loop rest page checked1 (cond_resched_rcu st1)
  end.

(** static void update_cache_scores(struct page *page,
                                    struct address_space *mapping, bool hit) *)
Definition update_cache_scores (page mapping_ : N) (hit : bool)
    (st : machine) : result machine :=
  if hit then update_page_score page MLCACHE_SCALE hit st
  else if (mapping_ =? NULL)%N then Ok st
  else
    sp ← load_space mapping_ st;
    '(penalize, _, st1) ← update_cache_scores_loop (page_tree sp) page 0 st;
    if penalize : bool then penalize_pages page mapping_ st1
    else Ok st1.

(** static void mlcache_pageget(void *data, struct page *page,
                                struct address_space *mapping, bool hit).
    [data] is not used by the function and is left out; the code under
    [#ifdef CONFIG_MLCACHE_ACTIVE] runs when the flag is [true]. *)
Definition mlcache_pageget (CONFIG_MLCACHE_ACTIVE : bool)
    (page mapping_ : N) (hit : bool) (st : machine) : result machine :=
  if (page =? NULL)%N then Ok st
  else
    let st1 := if hit then set_hits (to_ulong (hits st + 1)) st
               else set_misses (to_ulong (misses st + 1)) st in
    if CONFIG_MLCACHE_ACTIVE then
      let st2 := set_t (to_ulong (t st1 + 1)) st1 in
      st3 ← update_cache_scores page mapping_ hit st2;
      let st4 := set_items_in_cache (to_long (items_in_cache st3 + 1)) st3 in
      update_average page st4
    else Ok st1.

(** static int __init mlcache_init(void).  [entry] is what
    [proc_create("mlcache_stats", ...)] returned; the result is the
    [int] the function returns with the state it leaves. *)
Definition mlcache_init (CONFIG_MLCACHE_ACTIVE : bool) (entry : N)
    (st : machine) : Z * machine :=
  let st0 := set_proc_entry entry st in
  if (entry =? NULL)%N then
    (to_int (Z.of_N NULL), st0)          (* return NULL; *)
  else
    let st1 := set_misses 0 st0 in
    let st2 := set_hits (misses st1) st1 in
    let st3 := if CONFIG_MLCACHE_ACTIVE then set_t 0 st2 else st2 in
    (0, set_probe_registered true st3).

(** A sequence of lookup events delivered to the hook, oldest first:
    each is the (page, mapping, hit) of one call of [mlcache_pageget]. *)
Fixpoint lookups (CONFIG_MLCACHE_ACTIVE : bool) (calls : list (N * N * bool))
    (st : machine) : result machine :=
  match calls with
  | [] => Ok st
  | (page, mapping_, hit) :: rest =>
      st1 ← mlcache_pageget CONFIG_MLCACHE_ACTIVE page mapping_ hit st;
      lookups CONFIG_MLCACHE_ACTIVE rest st1
  end.

(** ** Well-formed inputs: every pointer the traversal follows names an
       object. *)

Definition slot_ok (st : machine) (s : slot) : bool :=
  match s with
  | SlotPage p => match pages st !! p with Some _ => true | None => false end
  | _ => true
  end.

Definition tree_ok (st : machine) (tree : list slot) : bool :=
  forallb (slot_ok st) tree.

Definition space_ok (st : machine) (mapping_ : N) : bool :=
  (mapping_ =? NULL)%N ||
  match spaces st !! mapping_ with
  | Some sp => tree_ok st (page_tree sp)
  | None => false
  end.

(** A result that, when it is a fault, is the fault of a bad pointer. *)
Definition only_bad_pointer {A} (r : result A) : Prop :=
  forall f, r = Fault f -> f = BadPointer.

(** The engine as the module's statics start: every counter zero. *)
Definition fresh (st : machine) : Prop :=
  hits st = 0 /\ misses st = 0 /\ t st = 0 /\
  weight_average st = 0 /\ items_in_cache st = 0.

(** The neutral update as the design words it: the update of a hit
    with reward 0, so that only the two bonus terms move the score. *)
Definition applyMissNeutral_score (st : machine) (pg : page) : Z :=
  to_long (mlcache_score pg - 0
           + upperBound (to_int (to_ulong (t st - 1))) (to_int (mlcache_plays pg))
           - upperBound (to_int (t st)) (to_int (mlcache_plays pg))
             * mlcache_plays pg).

(** ** Concrete machines used by the examples below *)

Module Examples.

Definition space : N := 9%N.

Definition machine_of (t0 average items : Z) (pgs : list (N * page))
    (tree : list slot) : machine :=
  Machine 0 0 t0 average items (list_to_map pgs)
          {[ space := AddressSpace tree ]} NULL false.

(** Three shadow entries; page 1 holds a remembered score, 2 and 3 none. *)
Definition shadow_found : machine :=
  machine_of 3 50 0
    [(1%N, Page NULL 5 0); (2%N, Page NULL 0 0); (3%N, Page NULL 0 0)]
    [SlotPage 2; SlotPage 1; SlotPage 3].

(** Page 1 is a shadow entry with score 0; address 77 names no page. *)
Definition shadow_zero : machine :=
  machine_of 2 50 0
    [(1%N, Page NULL 0 2); (2%N, Page NULL 7 0)]
    [SlotPage 2; SlotEmpty; SlotPage 1; SlotPage 77].

(** Page 4 is resident and has no entry in the tree. *)
Definition no_entry : machine :=
  machine_of 3 50 0
    [(2%N, Page NULL 7 0); (4%N, Page space 0 0)]
    [SlotPage 2; SlotException false].

(** The engine before its first lookup, with one resident page. *)
Definition first_lookup (plays : Z) : machine :=
  machine_of 0 0 0 [(4%N, Page space 0 plays)] [SlotPage 4].

(** Five items counted so far, average 20, a page of score 10. *)
Definition five_items : machine :=
  machine_of 7 20 5 [(4%N, Page space 10 1)] [SlotPage 4].

(** No item counted yet, and a page whose score is the least long. *)
Definition least_score : machine :=
  machine_of 1 0 0 [(4%N, Page space LONG_MIN 1)] [SlotPage 4].

End Examples.

(** ** Sequences of lookup events, counted *)

Definition is_ulong (z : Z) : Prop := 0 <= z < 2 ^ 64.

(** The events of a sequence that pass the null test of the hook and
    report a hit, and those that report a miss. *)
Fixpoint count_hits (calls : list (N * N * bool)) : Z :=
  match calls with
  | [] => 0
  | (page, _, hit) :: rest =>
      (if negb (page =? NULL)%N && hit then 1 else 0) + count_hits rest
  end.

Fixpoint count_misses (calls : list (N * N * bool)) : Z :=
  match calls with
  | [] => 0
  | (page, _, hit) :: rest =>
      (if negb (page =? NULL)%N && negb hit then 1 else 0) + count_misses rest
  end.

(** Is there a hit on page [q] among the events. *)
Definition hit_on (q : N) (calls : list (N * N * bool)) : bool :=
  existsb (fun c => (fst (fst c) =? q)%N && snd c) calls.

(** The divisor [update_average] uses when [mlcache_pageget] calls it:
    the counter after the increment of the hook and the guard of the
    fold. *)
Definition fold_divisor (st : machine) : Z :=
  let n := to_long (items_in_cache st + 1) in
  if n =? 0 then -1 else n.

(** The score [update_page_score] leaves on a page with a mapping after
    a hit with reward [MLCACHE_SCALE], when [t] holds [round]. *)
Definition hit_score (round : Z) (pg : page) : Z :=
  to_long (to_long (mlcache_score pg - MLCACHE_SCALE)
           + upperBound (to_int (to_ulong (round - 1))) (to_int (mlcache_plays pg))
           - upperBound (to_int round) (to_int (mlcache_plays pg))
             * mlcache_plays pg).

(** The slots whose page has no mapping and is not [page]: the entries
    a traversal hands to [update_page_score]. *)
Definition is_shadow_other (st : machine) (page : N) (s : slot) : bool :=
  match s with
  | SlotPage p =>
      match pages st !! p with
      | Some pg => (mapping pg =? NULL)%N && negb (p =? page)%N
      | None => false
      end
  | _ => false
  end.

Fixpoint shadow_others (st : machine) (page : N) (tree : list slot) : Z :=
  match tree with
  | [] => 0
  | s :: rest =>
      (if is_shadow_other st page s then 1 else 0) + shadow_others st page rest
  end.

(** ** The status file *)

(** The line feed that ends the report. *)
Definition newline : string := String (Ascii.ascii_of_nat 10) EmptyString.

(** static int mlcache_hits_show(struct seq_file *m, void *v).  The
    [seq_file] is the text it holds so far, [v] is not used.  The two
    unsigned long counters go through the conversion [%ld], which
    prints them as longs, in decimal with a minus sign when negative.
    The result is the [int] returned and the text. *)
Definition mlcache_hits_show (st : machine) (m : string) : Z * string :=
  (0, m +:+ "Hits: " +:+ pretty (to_long (hits st))
        +:+ " | Misses: " +:+ pretty (to_long (misses st)) +:+ newline).

(** static ssize_t mlcache_hits_write(struct file *m, const char *buf,
                                      size_t len, loff_t *off) *)
Definition mlcache_hits_write (buf : string) (len : Z) (st : machine)
  : Z * machine := (to_long (to_ulong len), st).   (* size_t as ssize_t *)

(** The characters [%ld] can produce. *)
Definition is_number_char (c : Ascii.ascii) : bool :=
  let n := Ascii.nat_of_ascii c in
  (n =? 45)%nat || ((48 <=? n)%nat && (n <=? 57)%nat).

Fixpoint number_text (s : string) : bool :=
  match s with
  | EmptyString => true
  | String c rest => is_number_char c && number_text rest
  end.

(** ** Machine arithmetic *)

Section Arith.

Lemma to_long_to_ulong z : to_long (to_ulong z) = to_long z.
Proof.
  unfold to_long, to_ulong. now rewrite Zplus_mod_idemp_l.
Qed.

Lemma to_ulong_to_long z : to_ulong (to_long z) = to_ulong z.
Proof.
  unfold to_long, to_ulong.
  rewrite Zminus_mod_idemp_l.
  f_equal. lia.
Qed.

Lemma to_long_congr a b : to_ulong a = to_ulong b -> to_long a = to_long b.
Proof.
  intros H. rewrite <- (to_long_to_ulong a), <- (to_long_to_ulong b).
  now rewrite H.
Qed.

Lemma to_ulong_add_l a b : to_ulong (to_ulong a + b) = to_ulong (a + b).
Proof. unfold to_ulong. apply Zplus_mod_idemp_l. Qed.

Lemma to_ulong_sub_l a b : to_ulong (to_ulong a - b) = to_ulong (a - b).
Proof. unfold to_ulong. apply Zminus_mod_idemp_l. Qed.

Lemma to_ulong_sub_r a b : to_ulong (a - to_ulong b) = to_ulong (a - b).
Proof. unfold to_ulong. apply Zminus_mod_idemp_r. Qed.

Lemma to_ulong_mul_r a b : to_ulong (a * to_ulong b) = to_ulong (a * b).
Proof. unfold to_ulong. apply Zmult_mod_idemp_r. Qed.

Lemma to_long_id z : is_long z -> to_long z = z.
Proof.
  unfold is_long, LONG_MIN, LONG_MAX, to_long. intros H.
  rewrite Z.mod_small by lia. lia.
Qed.

Lemma to_long_range z : is_long (to_long z).
Proof.
  unfold is_long, LONG_MIN, LONG_MAX, to_long.
  pose proof (Z.mod_pos_bound (z + 2 ^ 63) (2 ^ 64) ltac:(lia)). lia.
Qed.

Lemma to_int_id z : is_int z -> to_int z = z.
Proof.
  unfold is_int, to_int. intros H.
  rewrite Z.mod_small by lia. lia.
Qed.

Lemma to_uint_to_int z : to_uint (to_int z) = to_uint z.
Proof.
  unfold to_uint, to_int.
  rewrite Zminus_mod_idemp_l. f_equal. lia.
Qed.

(** The unsigned long expression of the hit update, read as a long, is
    the plain sum wrapped once. *)
Lemma hit_expression score b1 b2 plays :
  to_long (to_ulong (to_ulong (to_ulong score + b1)
                     - to_ulong (b2 * to_ulong plays)))
  = to_long (score + b1 - b2 * plays).
Proof.
  rewrite to_long_to_ulong. apply to_long_congr.
  rewrite to_ulong_mul_r, to_ulong_sub_r, to_ulong_sub_l.
  replace (to_ulong score + b1 - b2 * plays)
    with (to_ulong score + (b1 - b2 * plays)) by lia.
  rewrite to_ulong_add_l. f_equal. lia.
Qed.

Lemma to_long_add_l a b : to_long (to_long a + b) = to_long (a + b).
Proof.
  apply to_long_congr.
  rewrite <- to_ulong_add_l, to_ulong_to_long, to_ulong_add_l. reflexivity.
Qed.

Lemma to_long_add_sub_l a b c : to_long (to_long a + b - c) = to_long (a + b - c).
Proof.
  replace (to_long a + b - c) with (to_long a + (b - c)) by lia.
  rewrite to_long_add_l. f_equal. lia.
Qed.

Lemma all_ones_long : to_long (to_ulong (Z.lnot 0)) = -1.
Proof. reflexivity. Qed.

End Arith.

(** ** The bound estimator *)

Section Bound.

Lemma upperBound_step_0 plays : upperBound 0 plays = 0.
Proof. reflexivity. Qed.

Lemma upperBound_plays_0 step : upperBound step 0 = 0.
Proof. unfold upperBound. now rewrite Z.eqb_refl, andb_false_r. Qed.

Lemma upperBound_nonneg step plays : 0 <= upperBound step plays.
Proof.
  unfold upperBound.
  destruct (negb (step =? 0) && negb (plays =? 0)); [|lia].
  unfold int_sqrt. apply Z.sqrt_nonneg.
Qed.

Lemma ilog2_pos n : 0 < n < 2 ^ 32 -> ilog2 (to_int n) = Z.log2 n.
Proof.
  intros H. unfold ilog2. rewrite to_uint_to_int.
  unfold to_uint. rewrite Z.mod_small by lia.
  destruct (Z.eqb_spec n 0); [lia | reflexivity].
Qed.

Lemma log2_u32 n : 0 < n < 2 ^ 32 -> 0 <= Z.log2 n < 32.
Proof.
  intros H. split; [apply Z.log2_nonneg|].
  apply Z.log2_lt_pow2; lia.
Qed.

(** While [MLCACHE_SCALE^2 * (step + 1)] fits 32 bits the function is
    the formula of the design over the integers: the [int] product may
    wrap to a negative value (from step 214748 on), but [ilog2] reads
    its 32-bit pattern, which is the product itself. *)
Lemma upperBound_in_range step plays :
  0 < step -> 10000 * (step + 1) < 2 ^ 32 -> 0 < plays ->
  upperBound step plays
  = Z.sqrt (2 * 100 ^ 2 * Z.log2 (100 ^ 2 * (step + 1)) / plays).
Proof.
  intros Hs Hr Hp. unfold upperBound, MLCACHE_SCALE, int_sqrt.
  destruct (Z.eqb_spec step 0); [lia|].
  destruct (Z.eqb_spec plays 0); [lia|]. cbn [negb andb].
  change (100 * 100) with 10000. change (2 * 100 ^ 2) with 20000.
  change (100 ^ 2) with 10000.
  rewrite ilog2_pos by lia.
  pose proof (log2_u32 (10000 * (step + 1)) ltac:(lia)) as Hl.
  set (l := Z.log2 (10000 * (step + 1))) in *.
  rewrite (to_int_id (10000 * 2 * l)) by (unfold is_int; lia).
  rewrite Z.quot_div_nonneg by lia.
  assert (Hq : 0 <= 10000 * 2 * l / plays <= 10000 * 2 * l).
  { split; [apply Z.div_pos; lia|].
    apply Z.div_le_upper_bound; nia. }
  rewrite to_int_id by (unfold is_int; lia).
  unfold to_ulong. rewrite Z.mod_small by lia.
  f_equal; f_equal; lia.
Qed.

End Bound.

(** ** Reading and writing pages *)

Section Memory.

Lemma bind_Ok {A B} (k : A -> result B) (a : A) : (Ok a ≫= k) = k a.
Proof. reflexivity. Qed.

Lemma bind_Fault {A B} (k : A -> result B) (f : fault) :
  (Fault f ≫= k) = Fault f.
Proof. reflexivity. Qed.

(** Whether or not the traversal yields, it goes on in the same state. *)
Lemma yield_same {A} (b : bool) (k : machine -> A) (st : machine) :
  (if b then k st else k (cond_resched_rcu st)) = k st.
Proof. now destruct b. Qed.

Lemma load_page_Some st p pg :
  pages st !! p = Some pg -> load_page p st = Ok pg.
Proof. unfold load_page. now intros ->. Qed.

Lemma load_page_None st p :
  pages st !! p = None -> load_page p st = Fault BadPointer.
Proof. unfold load_page. now intros ->. Qed.

Lemma store_score_Some st p v pg :
  pages st !! p = Some pg ->
  store_score p v st = Ok (set_pages (<[p := with_score v pg]> (pages st)) st).
Proof. intros H. unfold store_score. now rewrite (load_page_Some _ _ _ H). Qed.

Lemma set_pages_id st : set_pages (pages st) st = st.
Proof. now destruct st. Qed.

(** A page without a mapping is never scored: [update_page_score]
    returns before either branch. *)
Lemma update_page_score_null_mapping st p by_ hit pg :
  pages st !! p = Some pg -> mapping pg = NULL ->
  update_page_score p by_ hit st = Ok st.
Proof.
  intros Hp Hm. unfold update_page_score.
  rewrite (load_page_Some _ _ _ Hp), bind_Ok, Hm. reflexivity.
Qed.

(** The hit branch on a page with a mapping. *)
Lemma update_page_score_hit st p by_ pg :
  pages st !! p = Some pg -> mapping pg <> NULL ->
  update_page_score p by_ true st
  = Ok (set_pages
          (<[p := with_score
                    (to_long (to_long (mlcache_score pg - by_)
                              + upperBound (to_int (to_ulong (t st - 1)))
                                           (to_int (mlcache_plays pg))
                              - upperBound (to_int (t st))
                                           (to_int (mlcache_plays pg))
                                * mlcache_plays pg))
                    pg]> (pages st)) st).
Proof.
  intros Hp Hm. unfold update_page_score.
  rewrite (load_page_Some _ _ _ Hp), bind_Ok.
  destruct (N.eqb_spec (mapping pg) NULL) as [|_]; [contradiction|].
  rewrite (store_score_Some _ _ _ _ Hp), bind_Ok.
  set (pg1 := with_score (to_long (mlcache_score pg - by_)) pg).
  set (st1 := set_pages (<[p:=pg1]> (pages st)) st).
  assert (Hp1 : pages st1 !! p = Some pg1) by apply lookup_insert_eq.
  rewrite (load_page_Some _ _ _ Hp1), bind_Ok.
  rewrite (store_score_Some _ _ _ _ Hp1).
  rewrite hit_expression.
  unfold st1, set_pages; cbn. rewrite insert_insert_eq. reflexivity.
Qed.

(** The miss branch on a page with a mapping: the seed from the
    average, after the guard on the average. *)
Lemma update_page_score_miss st p by_ pg :
  pages st !! p = Some pg -> mapping pg <> NULL ->
  let st1 := if weight_average st =? UINT_MAX
             then set_weight_average 0 st else st in
  update_page_score p by_ false st
  = Ok (set_pages (<[p := with_score (weight_average st1) pg]> (pages st)) st1).
Proof.
  intros Hp Hm. unfold update_page_score.
  rewrite (load_page_Some _ _ _ Hp), bind_Ok.
  destruct (N.eqb_spec (mapping pg) NULL) as [|_]; [contradiction|].
  cbv zeta.
  destruct (weight_average st =? UINT_MAX);
    now rewrite (store_score_Some _ _ _ pg).
Qed.

End Memory.

(** ** The miss path changes no state *)

Section MissPath.

Lemma tree_ok_cons st s tree :
  tree_ok st (s :: tree) = true -> slot_ok st s = true /\ tree_ok st tree = true.
Proof. unfold tree_ok. cbn. now rewrite andb_true_iff. Qed.

Lemma tree_ok_app st pre post :
  tree_ok st (pre ++ post) = tree_ok st pre && tree_ok st post.
Proof. unfold tree_ok. apply forallb_app. Qed.

Lemma slot_ok_page st p :
  slot_ok st (SlotPage p) = true -> exists pg, pages st !! p = Some pg.
Proof. cbn. destruct (pages st !! p); [eauto | discriminate]. Qed.

Lemma penalize_pages_loop_ok st tree page checked :
  tree_ok st tree = true ->
  exists c, penalize_pages_loop tree page checked st = Ok (c, st).
Proof.
  revert checked. induction tree as [|s rest IH]; intros checked Hok.
  - now exists checked.
  - apply tree_ok_cons in Hok as [Hs Hrest].
    destruct s as [| r | p]; cbn [penalize_pages_loop]; auto.
    destruct (slot_ok_page _ _ Hs) as [pg Hp].
    rewrite (load_page_Some _ _ _ Hp), bind_Ok.
    destruct (N.eqb_spec (mapping pg) NULL) as [Hm|_]; cbn [negb]; auto.
    destruct (p =? page)%N; auto.
    rewrite (update_page_score_null_mapping _ _ _ _ _ Hp Hm), bind_Ok, yield_same. auto.
Qed.

Lemma update_cache_scores_loop_ok st tree page checked :
  tree_ok st tree = true ->
  exists penalize c,
    update_cache_scores_loop tree page checked st = Ok (penalize, c, st).
Proof.
  revert checked. induction tree as [|s rest IH]; intros checked Hok.
  - now exists false, checked.
  - apply tree_ok_cons in Hok as [Hs Hrest].
    destruct s as [| r | p]; cbn [update_cache_scores_loop]; auto.
    destruct (slot_ok_page _ _ Hs) as [pg Hp].
    rewrite (load_page_Some _ _ _ Hp), bind_Ok.
    destruct (N.eqb_spec (mapping pg) NULL) as [Hm|_]; cbn [negb]; auto.
    destruct (p =? page)%N.
    + destruct (mlcache_score pg =? 0); [|now exists true, checked].
      rewrite (update_page_score_null_mapping _ _ _ _ _ Hp Hm), bind_Ok.
      now exists false, checked.
    + rewrite (update_page_score_null_mapping _ _ _ _ _ Hp Hm), bind_Ok, yield_same. auto.
Qed.

Lemma penalize_pages_ok st page mapping_ :
  space_ok st mapping_ = true -> penalize_pages page mapping_ st = Ok st.
Proof.
  unfold space_ok, penalize_pages, load_space. intros Hok.
  destruct (mapping_ =? NULL)%N; [reflexivity|]. cbn [orb] in Hok.
  destruct (spaces st !! mapping_) as [sp|]; [|discriminate].
  rewrite bind_Ok.
  destruct (penalize_pages_loop_ok st (page_tree sp) page 0 Hok) as [c ->].
  reflexivity.
Qed.

Lemma update_cache_scores_miss_ok st page mapping_ :
  space_ok st mapping_ = true ->
  update_cache_scores page mapping_ false st = Ok st.
Proof.
  intros Hok. unfold update_cache_scores.
  pose proof (penalize_pages_ok st page mapping_ Hok) as Hpen.
  unfold space_ok, load_space in *.
  destruct (mapping_ =? NULL)%N; [reflexivity|]. cbn [orb] in Hok.
  destruct (spaces st !! mapping_) as [sp|]; [|discriminate].
  rewrite bind_Ok.
  destruct (update_cache_scores_loop_ok st (page_tree sp) page 0 Hok)
    as (penalize & c & ->).
  rewrite bind_Ok. destruct penalize; [exact Hpen | reflexivity].
Qed.

(** Without any assumption on the pointers: a traversal either ends in
    the state it started from or stops on a bad pointer. *)
Lemma penalize_pages_loop_cases st tree page checked :
  penalize_pages_loop tree page checked st = Fault BadPointer \/
  exists c, penalize_pages_loop tree page checked st = Ok (c, st).
Proof.
  revert checked. induction tree as [|s rest IH]; intros checked.
  - right. now exists checked.
  - destruct s as [| r | p]; cbn [penalize_pages_loop]; auto.
    destruct (pages st !! p) as [pg|] eqn:Hp;
      [rewrite (load_page_Some _ _ _ Hp) | rewrite (load_page_None _ _ Hp); now left].
    rewrite !bind_Ok.
    destruct (N.eqb_spec (mapping pg) NULL) as [Hm|_]; cbn [negb]; auto.
    destruct (p =? page)%N; auto.
    rewrite (update_page_score_null_mapping _ _ _ _ _ Hp Hm), !bind_Ok, !yield_same. auto.
Qed.

Lemma update_cache_scores_loop_cases st tree page checked :
  update_cache_scores_loop tree page checked st = Fault BadPointer \/
  exists penalize c,
    update_cache_scores_loop tree page checked st = Ok (penalize, c, st).
Proof.
  revert checked. induction tree as [|s rest IH]; intros checked.
  - right. now exists false, checked.
  - destruct s as [| r | p]; cbn [update_cache_scores_loop]; auto.
    destruct (pages st !! p) as [pg|] eqn:Hp;
      [rewrite (load_page_Some _ _ _ Hp) | rewrite (load_page_None _ _ Hp); now left].
    rewrite !bind_Ok.
    destruct (N.eqb_spec (mapping pg) NULL) as [Hm|_]; cbn [negb]; auto.
    destruct (p =? page)%N.
    + destruct (mlcache_score pg =? 0); [|right; now exists true, checked].
      rewrite (update_page_score_null_mapping _ _ _ _ _ Hp Hm), !bind_Ok.
      right. now exists false, checked.
    + rewrite (update_page_score_null_mapping _ _ _ _ _ Hp Hm), !bind_Ok, !yield_same. auto.
Qed.

Lemma penalize_pages_cases st page mapping_ :
  penalize_pages page mapping_ st = Fault BadPointer \/
  penalize_pages page mapping_ st = Ok st.
Proof.
  unfold penalize_pages, load_space.
  destruct (mapping_ =? NULL)%N; [now right|].
  destruct (spaces st !! mapping_) as [sp|]; [|now left].
  rewrite bind_Ok.
  destruct (penalize_pages_loop_cases st (page_tree sp) page 0) as [->|[c ->]];
    [now left | now right].
Qed.

Lemma update_cache_scores_miss_cases st page mapping_ :
  update_cache_scores page mapping_ false st = Fault BadPointer \/
  update_cache_scores page mapping_ false st = Ok st.
Proof.
  unfold update_cache_scores.
  pose proof (penalize_pages_cases st page mapping_) as Hpen.
  unfold load_space.
  destruct (mapping_ =? NULL)%N; [now right|].
  destruct (spaces st !! mapping_) as [sp|]; [|now left].
  rewrite bind_Ok.
  destruct (update_cache_scores_loop_cases st (page_tree sp) page 0)
    as [->|(penalize & c & ->)]; [now left|].
  rewrite bind_Ok. destruct penalize; [exact Hpen | now right].
Qed.

End MissPath.

(** ** The scan for the missed page's own entry *)

Section Scan.

(** When the missed page sits in the tree as an entry without mapping,
    the first traversal ends at it: the flag says whether its score is
    nonzero, the state is the one it started from, and nothing behind
    the entry is read. *)
Lemma update_cache_scores_loop_found st pre page pg checked :
  tree_ok st pre = true ->
  pages st !! page = Some pg -> mapping pg = NULL ->
  exists c, forall rest,
    update_cache_scores_loop (pre ++ SlotPage page :: rest) page checked st
    = Ok (negb (mlcache_score pg =? 0), c, st).
Proof.
  intros Hok Hpage Hnull. revert checked.
  induction pre as [|s pre IH]; intros checked.
  - exists checked. intros rest. cbn [app update_cache_scores_loop].
    rewrite (load_page_Some _ _ _ Hpage), bind_Ok, Hnull, !N.eqb_refl.
    cbn [negb].
    destruct (mlcache_score pg =? 0); [|reflexivity].
    now rewrite (update_page_score_null_mapping _ _ _ _ _ Hpage Hnull).
  - apply tree_ok_cons in Hok as [Hs Hrest]. specialize (IH Hrest).
    destruct s as [| r | p]; [apply IH | apply IH |].
    destruct (slot_ok_page _ _ Hs) as [pg' Hp].
    destruct (N.eqb_spec (mapping pg') NULL) as [Hm|Hm].
    + destruct (N.eqb_spec p page) as [->|Hne].
      * assert (pg' = pg) as -> by congruence.
        exists checked. intros rest. cbn [app update_cache_scores_loop].
        rewrite (load_page_Some _ _ _ Hpage), bind_Ok, Hnull, !N.eqb_refl.
        cbn [negb].
        destruct (mlcache_score pg =? 0); [|reflexivity].
        now rewrite (update_page_score_null_mapping _ _ _ _ _ Hpage Hnull).
      * destruct (IH (to_uint (checked + 1))) as [c Hc].
        exists c. intros rest. cbn [app update_cache_scores_loop].
        rewrite (load_page_Some _ _ _ Hp), bind_Ok, Hm, N.eqb_refl.
        cbn [negb].
        destruct (N.eqb_spec p page); [contradiction|].
        rewrite (update_page_score_null_mapping _ _ _ _ _ Hp Hm), bind_Ok.
        rewrite yield_same. apply Hc.
    + destruct (IH checked) as [c Hc].
      exists c. intros rest. cbn [app update_cache_scores_loop].
      rewrite (load_page_Some _ _ _ Hp), bind_Ok.
      destruct (N.eqb_spec (mapping pg') NULL); [contradiction|].
      cbn [negb]. apply Hc.
Qed.

End Scan.

(** ** Faults of the entry point *)

Section Faults.

Lemma update_page_score_faults page by_ hit st :
  only_bad_pointer (update_page_score page by_ hit st).
Proof.
  intros f. unfold update_page_score.
  destruct (pages st !! page) as [pg|] eqn:Hp.
  - rewrite (load_page_Some _ _ _ Hp), bind_Ok.
    destruct (N.eqb_spec (mapping pg) NULL) as [Hm|Hm]; [discriminate|].
    destruct hit.
    + pose proof (update_page_score_hit st page by_ pg Hp Hm) as H.
      unfold update_page_score in H.
      rewrite (load_page_Some _ _ _ Hp), bind_Ok in H.
      destruct (N.eqb_spec (mapping pg) NULL); [contradiction|].
      rewrite H. discriminate.
    + destruct (weight_average st =? UINT_MAX);
        rewrite (store_score_Some _ _ _ pg) by exact Hp; discriminate.
  - rewrite (load_page_None _ _ Hp). cbn. congruence.
Qed.

Lemma update_cache_scores_faults page mapping_ hit st :
  only_bad_pointer (update_cache_scores page mapping_ hit st).
Proof.
  destruct hit.
  - apply update_page_score_faults.
  - intros f Hf.
    destruct (update_cache_scores_miss_cases st page mapping_) as [H|H];
      congruence.
Qed.

Lemma long_div_nonzero a b : b <> 0 -> long_div a b <> Fault DivideByZero.
Proof.
  intros Hb. unfold long_div.
  destruct (Z.eqb_spec b 0); [contradiction|].
  destruct ((a =? LONG_MIN) && (b =? -1)); discriminate.
Qed.

Lemma fold_count_nonzero st :
  (if items_in_cache st =? 0 then to_long (to_ulong (Z.lnot 0))
   else items_in_cache st) <> 0.
Proof.
  destruct (Z.eqb_spec (items_in_cache st) 0); [|assumption].
  rewrite all_ones_long. discriminate.
Qed.

Lemma update_average_no_zero_divide page st :
  update_average page st <> Fault DivideByZero.
Proof.
  unfold update_average.
  pose proof (fold_count_nonzero st) as Hc.
  set (st1 := if items_in_cache st =? 0 then _ else st).
  assert (Hi : items_in_cache st1 <> 0).
  { subst st1. destruct (items_in_cache st =? 0); [|exact Hc].
    cbn. discriminate. }
  destruct (pages st1 !! page) as [pg|] eqn:Hp.
  - rewrite (load_page_Some _ _ _ Hp), bind_Ok.
    pose proof (long_div_nonzero (mlcache_score pg) _ Hi) as Hd.
    destruct (long_div (mlcache_score pg) (items_in_cache st1)) as [q|f];
      [discriminate | cbn; congruence].
  - rewrite (load_page_None _ _ Hp). discriminate.
Qed.

(** What one fold computes when the quotient is a long. *)
Lemma update_average_run st page pg :
  pages st !! page = Some pg ->
  let st1 := if items_in_cache st =? 0 then set_items_in_cache (-1) st else st in
  ~ (mlcache_score pg = LONG_MIN /\ items_in_cache st1 = -1) ->
  update_average page st
  = Ok (set_weight_average
          (to_long (weight_average st + mlcache_score pg ÷ items_in_cache st1))
          st1).
Proof.
  intros Hp st1 Hov. unfold update_average. rewrite all_ones_long. fold st1.
  assert (Hp1 : pages st1 !! page = Some pg).
  { subst st1. now destruct (items_in_cache st =? 0). }
  assert (Hw : weight_average st1 = weight_average st).
  { subst st1. now destruct (items_in_cache st =? 0). }
  assert (Hi : items_in_cache st1 <> 0).
  { subst st1. destruct (Z.eqb_spec (items_in_cache st) 0); [discriminate | assumption]. }
  rewrite (load_page_Some _ _ _ Hp1), bind_Ok, Hw.
  unfold long_div.
  destruct (Z.eqb_spec (items_in_cache st1) 0); [contradiction|].
  destruct (Z.eqb_spec (mlcache_score pg) LONG_MIN) as [Hs|_];
    [destruct (Z.eqb_spec (items_in_cache st1) (-1)) as [Hc|_]|];
    cbn [andb]; [now destruct Hov | reflexivity | reflexivity].
Qed.

(** The hypothesis on the quotient is needed: the divisor -1 that the
    guard installs makes the division of the least long overflow. *)
Remark update_average_overflow :
  update_average 4 Examples.least_score = Fault DivideOverflow.
Proof. vm_compute. reflexivity. Qed.

(** The fold called on a counter that has just been incremented to a
    value other than 0 and -1. *)
Lemma fold_after_increment st3 page pg' :
  pages st3 !! page = Some pg' ->
  let n := to_long (items_in_cache st3 + 1) in
  n <> 0 -> n <> -1 ->
  update_average page (set_items_in_cache n st3)
  = Ok (set_weight_average
          (to_long (weight_average st3 + mlcache_score pg' ÷ n))
          (set_items_in_cache n st3)).
Proof.
  intros Hp n Hn0 Hn1.
  assert (Hp4 : pages (set_items_in_cache n st3) !! page = Some pg') by exact Hp.
  rewrite (update_average_run _ page pg' Hp4); cbv zeta;
    cbn [items_in_cache set_items_in_cache];
    destruct (Z.eqb_spec n 0); try contradiction.
  - reflexivity.
  - cbn [items_in_cache set_items_in_cache]. now intros [_ H].
Qed.

(** Every lookup with a page, hit or miss, increments the counter and
    then folds: the divisor is the incremented counter. *)
Lemma mlcache_pageget_divisor st page mapping_ hit pg :
  page <> NULL ->
  pages st !! page = Some pg ->
  (hit = false -> space_ok st mapping_ = true) ->
  let n := to_long (items_in_cache st + 1) in
  n <> 0 -> n <> -1 ->
  exists st' pg',
    mlcache_pageget true page mapping_ hit st = Ok st' /\
    pages st' !! page = Some pg' /\
    items_in_cache st' = n /\
    weight_average st'
    = to_long (weight_average st + mlcache_score pg' ÷ n).
Proof.
  intros Hpage Hp Hok n Hn0 Hn1. unfold mlcache_pageget.
  destruct (N.eqb_spec page NULL); [contradiction|]. cbv zeta.
  destruct hit.
  - set (st2 := set_t _ _).
    assert (Hp2 : pages st2 !! page = Some pg) by exact Hp.
    unfold update_cache_scores.
    destruct (N.eq_dec (mapping pg) NULL) as [Hm|Hm].
    + rewrite (update_page_score_null_mapping _ _ _ _ _ Hp2 Hm), bind_Ok.
      rewrite (fold_after_increment st2 page pg Hp2 Hn0 Hn1).
      eexists _, pg. split; [reflexivity|]. now cbn.
    + rewrite (update_page_score_hit st2 page _ pg Hp2 Hm), bind_Ok.
      set (st3 := set_pages _ st2).
      assert (Hp3 : pages st3 !! page = Some _) by apply lookup_insert_eq.
      rewrite (fold_after_increment st3 page _ Hp3 Hn0 Hn1).
      eexists _, _. split; [reflexivity|]. split; [exact Hp3|]. now cbn.
  - set (st2 := set_t _ _).
    assert (Hp2 : pages st2 !! page = Some pg) by exact Hp.
    assert (Hok2 : space_ok st2 mapping_ = true) by exact (Hok eq_refl).
    rewrite (update_cache_scores_miss_ok st2 page mapping_ Hok2), bind_Ok.
    rewrite (fold_after_increment st2 page pg Hp2 Hn0 Hn1).
    eexists _, pg. split; [reflexivity|]. now cbn.
Qed.

Lemma mlcache_pageget_no_zero_divide active page mapping_ hit st :
  mlcache_pageget active page mapping_ hit st <> Fault DivideByZero.
Proof.
  unfold mlcache_pageget.
  destruct (page =? NULL)%N; [discriminate|].
  destruct active; [|discriminate]. cbv zeta.
  match goal with
  | |- context [update_cache_scores ?p ?m ?h ?s] =>
      pose proof (update_cache_scores_faults p m h s) as Hf;
      destruct (update_cache_scores p m h s) as [st3|f]
  end.
  - rewrite bind_Ok. apply update_average_no_zero_divide.
  - cbn. intros H. specialize (Hf f eq_refl). congruence.
Qed.

Lemma lookups_no_zero_divide active calls st :
  lookups active calls st <> Fault DivideByZero.
Proof.
  revert st. induction calls as [|[[page mapping_] hit] rest IH]; intros st.
  - discriminate.
  - cbn [lookups].
    pose proof (mlcache_pageget_no_zero_divide active page mapping_ hit st) as H.
    destruct (mlcache_pageget active page mapping_ hit st) as [st1|f].
    + rewrite bind_Ok. apply IH.
    + cbn. congruence.
Qed.

End Faults.

(** ** The properties of the design, settled on the code *)

Section Hit.

(** Claim C5.  For a page with a live mapping a hit changes that page's
    score and nothing else: the score first loses the reward
    [MLCACHE_SCALE] = 100 and then gains
    [upperBound (t - 1) plays - upperBound t plays * plays], in the
    arithmetic of a long.  The page's play count and mapping, every
    other page and every counter of the engine are as before. *)
Theorem hit_updates_only_item st page mapping_ pg :
  pages st !! page = Some pg ->
  mapping pg <> NULL ->
  let rewarded := to_long (mlcache_score pg - 100) in
  let bound_before :=
    upperBound (to_int (to_ulong (t st - 1))) (to_int (mlcache_plays pg)) in
  let bound_now := upperBound (to_int (t st)) (to_int (mlcache_plays pg)) in
  let score' := to_long (rewarded + bound_before - bound_now * mlcache_plays pg) in
  exists st',
    update_cache_scores page mapping_ true st = Ok st' /\
    pages st' !! page = Some (Page (mapping pg) score' (mlcache_plays pg)) /\
    (forall q, q <> page -> pages st' !! q = pages st !! q) /\
    st' = set_pages (pages st') st /\
    (is_long (mlcache_score pg - 100 + bound_before - bound_now * mlcache_plays pg) ->
     score' = mlcache_score pg - 100 + bound_before - bound_now * mlcache_plays pg).
Proof.
  intros Hp Hm rewarded bound_before bound_now score'.
  eexists. split.
  - unfold update_cache_scores. apply (update_page_score_hit st page _ pg Hp Hm).
  - cbn. split; [|split; [|split]].
    + rewrite lookup_insert_eq. reflexivity.
    + intros q Hq. now rewrite lookup_insert_ne.
    + reflexivity.
    + intros Hrange. subst score' rewarded.
      rewrite to_long_add_sub_l. now apply to_long_id.
Qed.

Lemma hit_updates_only_item_witness :
  exists st',
    update_cache_scores 4 Examples.space true Examples.five_items = Ok st' /\
    pages st' !! 4%N = Some (Page Examples.space (-90) 1) /\
    (forall q, q <> 4%N -> pages st' !! q = pages Examples.five_items !! q) /\
    st' = set_pages (pages st') Examples.five_items.
Proof.
  destruct (hit_updates_only_item Examples.five_items 4 Examples.space
              (Page Examples.space 10 1))
    as (st' & Hrun & Hpg & Hframe & Hrest & _).
  - reflexivity.
  - discriminate.
  - exists st'. repeat split; assumption.
Defined.

(** Claim C6, as the code has it.  The first hit lookup on an engine
    whose counters are all zero takes the round counter [t] from 0 to 1
    and leaves the play count of the page as it was: the module never
    writes it.  The score of a page with a live mapping, score [s] and
    play count [p] becomes [s - 100 + upperBound 0 p - upperBound 1 p * p],
    where [upperBound 0 p] is 0: from score 0 that is -100 when [p] is 0
    and -100 - upperBound 1 1 = -629 when the play count was already 1. *)
Theorem fresh_hit_lookup st page mapping_ pg :
  fresh st ->
  page <> NULL ->
  pages st !! page = Some pg ->
  mapping pg <> NULL ->
  let p := mlcache_plays pg in
  let score' :=
    to_long (mlcache_score pg - 100 + upperBound 0 (to_int p)
             - upperBound 1 (to_int p) * p) in
  exists st',
    mlcache_pageget true page mapping_ true st = Ok st' /\
    t st' = 1 /\
    pages st' !! page = Some (Page (mapping pg) score' p) /\
    (mlcache_score pg = 0 -> p = 0 -> score' = -100) /\
    (mlcache_score pg = 0 -> p = 1 ->
       score' = -100 - upperBound 1 1 /\ score' = -629).
Proof.
  intros (Hh & Hmi & Ht & Hw & Hi) Hpage Hp Hm p score'.
  unfold mlcache_pageget.
  destruct (N.eqb_spec page NULL) as [|_]; [contradiction|]. cbv zeta.
  set (st2 := set_t _ _).
  assert (Hp2 : pages st2 !! page = Some pg) by exact Hp.
  unfold update_cache_scores.
  rewrite (update_page_score_hit st2 page _ pg Hp2 Hm), bind_Ok.
  assert (Ht2 : t st2 = 1) by (cbn; rewrite Ht; reflexivity).
  rewrite Ht2. change (to_int (to_ulong (1 - 1))) with 0.
  change (to_int 1) with 1. rewrite to_long_add_sub_l. fold p.
  unfold MLCACHE_SCALE. fold score'.
  set (st4 := set_items_in_cache _ _).
  assert (Hp4 : pages st4 !! page = Some (with_score score' pg))
    by apply lookup_insert_eq.
  assert (Hi4 : items_in_cache st4 = 1) by (cbn; rewrite Hi; reflexivity).
  rewrite (update_average_run st4 page _ Hp4);
    [|rewrite Hi4; cbn [Z.eqb]; rewrite Hi4; intros [_ H]; discriminate].
  rewrite Hi4. cbn [Z.eqb]. rewrite Hi4.
  eexists. split; [reflexivity|]. cbn. split; [exact Ht2|].
  split; [now rewrite lookup_insert_eq|].
  subst score' p. split.
  - intros -> ->. reflexivity.
  - intros -> ->. split; reflexivity.
Qed.

Lemma fresh_hit_lookup_witness :
  exists st',
    mlcache_pageget true 4 Examples.space true (Examples.first_lookup 1) = Ok st' /\
    t st' = 1 /\
    pages st' !! 4%N = Some (Page Examples.space (-629) 1).
Proof.
  destruct (fresh_hit_lookup (Examples.first_lookup 1) 4 Examples.space
              (Page Examples.space 0 1)) as (st' & Hrun & Ht & Hpg & _).
  - repeat split; reflexivity.
  - discriminate.
  - reflexivity.
  - discriminate.
  - exists st'. repeat split; assumption.
Defined.

(** Claim C6 does not hold as written: after the first hit on a fresh
    engine the page's play count is still 0, not 1, and its score is
    -100, not -100 - upperBound 1 1. *)
Lemma fresh_hit_play_count_not_incremented :
  exists st' pg',
    mlcache_pageget true 4 Examples.space true (Examples.first_lookup 0) = Ok st' /\
    pages st' !! 4%N = Some pg' /\
    mlcache_plays pg' = 0 /\ mlcache_plays pg' <> 1 /\
    mlcache_score pg' = -100 /\
    mlcache_score pg' <> -100 - upperBound 1 1.
Proof.
  eexists _, _. split; [vm_compute; reflexivity|].
  split; [vm_compute; reflexivity|].
  cbn. repeat split; discriminate.
Qed.

End Hit.

Section Miss.

(** Claim C2.  A miss changes no score.  [update_page_score] returns at
    once on a page whose mapping is null, both traversals hand it only
    pages whose mapping is null, and nothing else on the miss path
    writes: whatever the tree holds, [update_cache_scores] with
    [hit = false] ends in the state it started from, play counts,
    scores and the average included. *)
Theorem miss_path_changes_nothing st page mapping_ :
  space_ok st mapping_ = true ->
  update_cache_scores page mapping_ false st = Ok st /\
  penalize_pages page mapping_ st = Ok st /\
  (forall p by_ hit pg,
     pages st !! p = Some pg -> mapping pg = NULL ->
     update_page_score p by_ hit st = Ok st).
Proof.
  intros Hok. split; [|split].
  - now apply update_cache_scores_miss_ok.
  - now apply penalize_pages_ok.
  - intros p by_ hit pg. apply update_page_score_null_mapping.
Qed.

Lemma miss_path_changes_nothing_witness :
  update_cache_scores 1 Examples.space false Examples.shadow_found
  = Ok Examples.shadow_found.
Proof.
  apply (miss_path_changes_nothing Examples.shadow_found 1 Examples.space).
  reflexivity.
Defined.

(** Claim C1, evaluated on the code.  Three shadow entries, of which
    only the missed page 1 has a nonzero score: the first traversal
    stops at page 1 with [penalize] set after one other entry, the
    second pass hands the two other entries to [update_page_score], and
    both keep the score 0 they had: neither is reduced by 100. *)
Theorem shadow_found_others_keep_score :
  let st := Examples.shadow_found in
  update_cache_scores_loop [SlotPage 2; SlotPage 1; SlotPage 3] 1 0 st
    = Ok (true, 1, st) /\
  penalize_pages_loop [SlotPage 2; SlotPage 1; SlotPage 3] 1 0 st
    = Ok (2, st) /\
  exists st',
    update_cache_scores 1 Examples.space false st = Ok st' /\
    mlcache_score <$> pages st' !! 1%N = Some 5 /\
    mlcache_score <$> pages st' !! 2%N = Some 0 /\
    mlcache_score <$> pages st' !! 3%N = Some 0.
Proof.
  cbv zeta. split; [vm_compute; reflexivity|].
  split; [vm_compute; reflexivity|].
  eexists. split; [vm_compute; reflexivity|].
  vm_compute. repeat split.
Qed.

(** What the code does when the traversal of a miss comes to the missed
    page's own entry and its score is exactly 0: it stops there, what
    the tree holds behind the entry is not read, the flag [penalize]
    stays clear, and the call of [update_page_score] on the entry
    returns at the test of the mapping, so that the state is the one
    the miss started from. *)
Theorem miss_zero_shadow_stops_scan st page mapping_ pre rest pg :
  mapping_ <> NULL ->
  spaces st !! mapping_ = Some (AddressSpace (pre ++ SlotPage page :: rest)) ->
  tree_ok st pre = true ->
  pages st !! page = Some pg ->
  mapping pg = NULL ->
  mlcache_score pg = 0 ->
  (exists c, forall behind,
     update_cache_scores_loop (pre ++ SlotPage page :: behind) page 0 st
     = Ok (false, c, st)) /\
  update_cache_scores page mapping_ false st = Ok st.
Proof.
  intros Hm Hsp Hok Hp Hnull Hzero.
  destruct (update_cache_scores_loop_found st pre page pg 0 Hok Hp Hnull)
    as [c Hc].
  rewrite Hzero in Hc. cbn [Z.eqb negb] in Hc.
  split; [now exists c|].
  unfold update_cache_scores, load_space.
  destruct (N.eqb_spec mapping_ NULL); [contradiction|].
  rewrite Hsp, bind_Ok. cbn [page_tree]. rewrite Hc. reflexivity.
Qed.

Lemma miss_zero_shadow_stops_scan_witness :
  (exists c, forall behind,
     update_cache_scores_loop
       ([SlotPage 2; SlotEmpty] ++ SlotPage 1 :: behind) 1 0 Examples.shadow_zero
     = Ok (false, c, Examples.shadow_zero)) /\
  update_cache_scores 1 Examples.space false Examples.shadow_zero
  = Ok Examples.shadow_zero.
Proof.
  apply (miss_zero_shadow_stops_scan Examples.shadow_zero 1 Examples.space
           [SlotPage 2; SlotEmpty] [SlotPage 77] (Page NULL 0 2)).
  - discriminate.
  - reflexivity.
  - reflexivity.
  - reflexivity.
  - reflexivity.
  - reflexivity.
Defined.

(** Claim C3, evaluated on the code.  Page 1 is the missed page, its
    entry has score 0 and play count 2, [t] is 2 and the average 50.
    The traversal stops at the entry with [penalize] clear, without
    reading the slot behind it, and no other score changes; but the
    update of the entry itself is lost: the neutral update would leave
    -374, and [update_page_score (p, 0, 0)] returns at the test of the
    mapping, so the score is still 0.  The same call on the same page
    with a mapping writes the average, 50: it is the seed of a miss,
    not the update of a hit with reward 0. *)
Theorem miss_zero_shadow_bonus_not_recomputed :
  let st := Examples.shadow_zero in
  applyMissNeutral_score st (Page NULL 0 2) = -374 /\
  update_cache_scores_loop
    [SlotPage 2; SlotEmpty; SlotPage 1; SlotPage 77] 1 0 st = Ok (false, 1, st) /\
  (exists st' pg',
     update_cache_scores 1 Examples.space false st = Ok st' /\
     pages st' !! 1%N = Some pg' /\
     mlcache_score pg' = 0 /\
     mlcache_score pg' <> applyMissNeutral_score st (Page NULL 0 2) /\
     pages st' !! 2%N = pages st !! 2%N) /\
  (exists st' pg',
     update_page_score 1 0 false
       (set_pages (<[1%N := Page Examples.space 0 2]> (pages st)) st) = Ok st' /\
     pages st' !! 1%N = Some pg' /\
     mlcache_score pg' = 50).
Proof.
  cbv zeta. split; [reflexivity|].
  split; [vm_compute; reflexivity|].
  split.
  - eexists _, _. split; [vm_compute; reflexivity|].
    split; [vm_compute; reflexivity|].
    split; [reflexivity|]. split; [discriminate | reflexivity].
  - eexists _, _. split; [vm_compute; reflexivity|].
    split; [vm_compute; reflexivity | reflexivity].
Qed.

(** Claim C4, evaluated on the code.  The missed page 4 has a live
    mapping and no entry in the tree, and the average is 50: the
    traversal ends without a match, no seed is applied, and the page's
    score is still 0 after the miss path and after the whole lookup,
    with a tree and without one. *)
Theorem missed_page_without_entry_not_seeded :
  let st := Examples.no_entry in
  weight_average st = 50 /\
  mlcache_score <$> pages st !! 4%N = Some 0 /\
  update_cache_scores 4 Examples.space false st = Ok st /\
  update_cache_scores 4 NULL false st = Ok st /\
  (exists st',
     mlcache_pageget true 4 Examples.space false st = Ok st' /\
     weight_average st' = 50 /\
     mlcache_score <$> pages st' !! 4%N = Some 0) /\
  (exists st',
     mlcache_pageget true 4 NULL false st = Ok st' /\
     mlcache_score <$> pages st' !! 4%N = Some 0).
Proof.
  cbv zeta. split; [reflexivity|].
  split; [vm_compute; reflexivity|].
  split; [vm_compute; reflexivity|].
  split; [vm_compute; reflexivity|].
  split; eexists; (split; [vm_compute; reflexivity|]); vm_compute; auto.
Qed.

End Miss.

Section BoundClaim.

(** Claim C7, evaluated on the code.  At step 429496 the product
    [MLCACHE_SCALE * MLCACHE_SCALE * (step + 1)] is 4294970000, which
    needs 33 bits: the [int] holds 2704, [ilog2] gives 11 where the
    logarithm of the product is 32, and [upperBound 429496 1] is 469
    where the formula of the design gives 800. *)
Theorem upperBound_wraps_at_429496 :
  to_int (MLCACHE_SCALE * MLCACHE_SCALE * (429496 + 1)) = 2704 /\
  upperBound 429496 1 = 469 /\
  Z.sqrt (2 * 100 ^ 2 * Z.log2 (100 ^ 2 * (429496 + 1)) / 1) = 800.
Proof. repeat split. Qed.

End BoundClaim.

Section Fold.

(** Claim C8, as the code has it.  [update_average] first replaces a
    counter [items_in_cache] of 0 by a value that is not 0, then adds
    the quotient of the page's score by the counter to
    [weight_average], and leaves the counter alone: the fold does not
    increment it.  The one increment is made by [mlcache_pageget], on
    every hit and every miss, before it calls the fold, so the divisor
    of the fold of a lookup is the counter already incremented.  The
    divisor is never 0, in any state, hence in no sequence of lookups
    from any state. *)
Theorem update_average_fold st page pg :
  page <> NULL ->
  pages st !! page = Some pg ->
  mlcache_score pg <> LONG_MIN ->
  (exists st',
     update_average page st = Ok st' /\
     items_in_cache st' <> 0 /\
     (items_in_cache st <> 0 -> items_in_cache st' = items_in_cache st) /\
     weight_average st'
       = to_long (weight_average st + mlcache_score pg ÷ items_in_cache st') /\
     pages st' = pages st) /\
  (forall st0 p, update_average p st0 <> Fault DivideByZero) /\
  (forall mapping_ hit,
     (hit = false -> space_ok st mapping_ = true) ->
     let n := to_long (items_in_cache st + 1) in
     n <> 0 -> n <> -1 ->
     exists st' pg',
       mlcache_pageget true page mapping_ hit st = Ok st' /\
       pages st' !! page = Some pg' /\
       items_in_cache st' = n /\
       weight_average st'
       = to_long (weight_average st + mlcache_score pg' ÷ n)) /\
  (forall active calls, lookups active calls st <> Fault DivideByZero).
Proof.
  intros Hpage Hp Hscore.
  split; [|split; [|split]].
  - rewrite (update_average_run st page pg Hp) by (intros [H _]; contradiction).
    eexists. split; [reflexivity|].
    destruct (Z.eqb_spec (items_in_cache st) 0) as [H0|H0]; cbn.
    + split; [discriminate|]. split; [intros; contradiction|].
      split; reflexivity.
    + split; [assumption|]. split; [reflexivity|]. split; reflexivity.
  - intros st0 p. apply update_average_no_zero_divide.
  - intros mapping_ hit Hok n Hn0 Hn1.
    now apply (mlcache_pageget_divisor st page mapping_ hit pg).
  - intros active calls. apply lookups_no_zero_divide.
Qed.

Lemma update_average_fold_witness :
  (exists st',
     update_average 4 Examples.five_items = Ok st' /\
     items_in_cache st' = 5 /\ weight_average st' = 22) /\
  (exists st' pg',
     mlcache_pageget true 4 Examples.space false Examples.five_items = Ok st' /\
     pages st' !! 4%N = Some pg' /\
     items_in_cache st' = 6 /\
     weight_average st' = to_long (20 + mlcache_score pg' ÷ 6)) /\
  (exists st' pg',
     mlcache_pageget true 4 Examples.space true Examples.five_items = Ok st' /\
     pages st' !! 4%N = Some pg' /\
     items_in_cache st' = 6 /\
     weight_average st' = to_long (20 + mlcache_score pg' ÷ 6)).
Proof.
  destruct (update_average_fold Examples.five_items 4 (Page Examples.space 10 1))
    as ((st' & Hrun & _ & Hkeep & Hw & _) & _ & Hhook & _).
  - discriminate.
  - reflexivity.
  - discriminate.
  - split; [|split].
    + exists st'. split; [exact Hrun|]. split.
      * apply Hkeep. discriminate.
      * rewrite Hw, (Hkeep ltac:(discriminate)). reflexivity.
    + apply (Hhook Examples.space false); [reflexivity | discriminate | discriminate].
    + apply (Hhook Examples.space true); [discriminate | discriminate | discriminate].
Defined.

(** Claim C8 does not hold as written: the fold does not increment the
    counter.  With five items counted it adds 10 / 5 to the average and
    the counter is still 5, not 6. *)
Lemma update_average_leaves_count :
  exists st',
    update_average 4 Examples.five_items = Ok st' /\
    items_in_cache Examples.five_items = 5 /\
    weight_average st' = 22 /\
    items_in_cache st' = 5 /\
    items_in_cache st' <> 5 + 1.
Proof.
  eexists. split; [vm_compute; reflexivity|].
  cbn. repeat split. discriminate.
Qed.

End Fold.

Section Lifecycle.

(** Claim C9, evaluated on the code.  When [proc_create] returns NULL,
    [mlcache_init] returns NULL as its [int], which is 0, the value of
    a successful start; the probe is not registered and no counter is
    written. *)
Theorem mlcache_init_failure_returns_zero active st :
  mlcache_init active NULL st = (0, set_proc_entry NULL st) /\
  probe_registered (snd (mlcache_init active NULL st)) = probe_registered st /\
  (forall entry, entry <> NULL ->
     fst (mlcache_init active entry st) = 0 /\
     probe_registered (snd (mlcache_init active entry st)) = true).
Proof.
  split; [reflexivity|]. split; [reflexivity|].
  intros entry Hentry. unfold mlcache_init.
  destruct (N.eqb_spec entry NULL); [contradiction|].
  split; reflexivity.
Qed.

(** Claim C10.  A lookup event whose page pointer is null does nothing:
    the state after [mlcache_pageget] is the state before it, so
    [hits], [misses], [t], [items_in_cache], [weight_average] and every
    page's score and play count are unchanged, whatever the mapping,
    the outcome and the configuration. *)
Theorem mlcache_pageget_null_page active mapping_ hit st :
  mlcache_pageget active NULL mapping_ hit st = Ok st.
Proof. reflexivity. Qed.

End Lifecycle.

(** ** Further properties of the bound estimator *)

Section BoundShape.

Lemma ilog2_range n : -1 <= ilog2 n <= 31.
Proof.
  unfold ilog2, to_uint.
  pose proof (Z.mod_pos_bound n (2 ^ 32) ltac:(lia)) as Hu.
  destruct (Z.eqb_spec (n mod 2 ^ 32) 0) as [|Hne]; [lia|].
  pose proof (log2_u32 (n mod 2 ^ 32) ltac:(lia)). lia.
Qed.

(** The dividend of [upperBound] is an [int] between -20000 and 620000. *)
Lemma upperBound_dividend n :
  let d := to_int (MLCACHE_SCALE * MLCACHE_SCALE * 2 * ilog2 n) in
  d = 20000 * ilog2 n /\ -20000 <= d <= 620000.
Proof.
  cbv zeta. pose proof (ilog2_range n) as Hl. unfold MLCACHE_SCALE.
  rewrite to_int_id by (unfold is_int; lia). lia.
Qed.

(** In its operating range the bound is the formula of UCB1 over the
    integers: while [100^2 * (step + 1)] fits 32 bits, that is for
    [1 <= step <= 429495], and for a positive play count,
    [upperBound step plays] is the integer square root of
    [2 * 100^2 * log2 (100^2 * (step + 1)) / plays], with the integer
    logarithm and the integer quotient. *)
Theorem upperBound_operating_range step plays :
  1 <= step <= 429495 -> 1 <= plays ->
  upperBound step plays
  = Z.sqrt (2 * 100 ^ 2 * Z.log2 (100 ^ 2 * (step + 1)) / plays).
Proof. intros Hs Hp. apply upperBound_in_range; lia. Qed.

Lemma upperBound_operating_range_witness :
  upperBound 1000 4 = Z.sqrt (2 * 100 ^ 2 * Z.log2 (100 ^ 2 * (1000 + 1)) / 4).
Proof. apply (upperBound_operating_range 1000 4); lia. Defined.

Lemma upperBound_step_le step step' plays :
  1 <= step <= step' -> step' <= 429495 -> 1 <= plays ->
  upperBound step plays <= upperBound step' plays.
Proof.
  intros Hs Hs' Hp.
  rewrite !upperBound_in_range by lia.
  apply Z.sqrt_le_mono, Z.div_le_mono; [lia|].
  apply Z.mul_le_mono_nonneg_l; [lia|].
  apply Z.log2_le_mono. lia.
Qed.

Lemma upperBound_le_787 step plays :
  1 <= step <= 429495 -> 1 <= plays -> upperBound step plays <= 787.
Proof.
  intros Hs Hp.
  rewrite upperBound_in_range by lia.
  change 787 with (Z.sqrt 620000). apply Z.sqrt_le_mono.
  pose proof (log2_u32 (100 ^ 2 * (step + 1)) ltac:(lia)) as Hl.
  transitivity (2 * 100 ^ 2 * Z.log2 (100 ^ 2 * (step + 1))).
  - apply Z.div_le_upper_bound; [lia|]. nia.
  - lia.
Qed.

(** For a fixed step of the operating range the bound does not grow
    with the play count: a page played more often gets at most the
    bonus of a page played less often. *)
Theorem upperBound_antitone_in_plays step plays plays' :
  1 <= step <= 429495 -> 1 <= plays <= plays' ->
  upperBound step plays' <= upperBound step plays.
Proof.
  intros Hs Hp.
  rewrite !upperBound_in_range by lia.
  apply Z.sqrt_le_mono.
  pose proof (Z.log2_nonneg (100 ^ 2 * (step + 1))).
  apply Z.div_le_compat_l; lia.
Qed.

Lemma upperBound_antitone_in_plays_witness :
  upperBound 1000 9 <= upperBound 1000 4.
Proof. apply (upperBound_antitone_in_plays 1000 4 9); lia. Defined.

(** For a fixed positive play count the bound does not shrink as the
    step grows inside the operating range. *)
Theorem upperBound_monotone_in_step step step' plays :
  1 <= step <= step' -> step' <= 429495 -> 1 <= plays ->
  upperBound step plays <= upperBound step' plays.
Proof. apply upperBound_step_le. Qed.

Lemma upperBound_monotone_in_step_witness :
  upperBound 10 4 <= upperBound 1000 4.
Proof. apply (upperBound_monotone_in_step 10 1000 4); lia. Defined.

(** In the operating range the bound is at most 787, the integer
    square root of 20000 * 31. *)
Theorem upperBound_at_most_787 step plays :
  1 <= step <= 429495 -> 1 <= plays ->
  0 <= upperBound step plays <= 787.
Proof.
  intros Hs Hp. split; [apply upperBound_nonneg | now apply upperBound_le_787].
Qed.

Lemma upperBound_at_most_787_witness :
  0 <= upperBound 429495 1 <= 787.
Proof. apply (upperBound_at_most_787 429495 1); lia. Defined.

(** Whatever the step, even outside the operating range, the bound is
    0 once the play count exceeds 620000 in magnitude: the dividend is
    an [int] of magnitude at most 620000 and the quotient truncates to
    0. *)
Theorem upperBound_vanishes step plays :
  620000 < Z.abs plays ->
  upperBound step plays = 0.
Proof.
  intros Hp. unfold upperBound.
  destruct (negb (step =? 0) && negb (plays =? 0)); [|reflexivity].
  destruct (upperBound_dividend (to_int (MLCACHE_SCALE * MLCACHE_SCALE * (step + 1))))
    as [_ Hd].
  cbv zeta in Hd.
  rewrite (proj2 (Z.quot_small_iff _ plays ltac:(lia))) by lia.
  reflexivity.
Qed.

Lemma upperBound_vanishes_witness :
  upperBound 268435455 620001 = 0.
Proof. apply (upperBound_vanishes 268435455 620001). cbn. lia. Defined.

(** A negative play count is not rejected: in the operating range a
    play count between -20000 and -1 makes the quotient negative, the
    conversion to unsigned long turns it into a value just below 2^64,
    and the bound is 4294967295. *)
Theorem upperBound_negative_plays step plays :
  1 <= step <= 429495 -> -20000 <= plays <= -1 ->
  upperBound step plays = 4294967295.
Proof.
  intros Hs Hp. unfold upperBound, int_sqrt.
  destruct (Z.eqb_spec step 0); [lia|].
  destruct (Z.eqb_spec plays 0); [lia|]. cbn [negb andb].
  destruct (upperBound_dividend (to_int (MLCACHE_SCALE * MLCACHE_SCALE * (step + 1))))
    as [Hd Hr].
  cbv zeta in Hd, Hr. set (d := to_int (_ * 2 * _)) in *.
  assert (Hl : 20000 <= d).
  { rewrite Hd. unfold MLCACHE_SCALE. rewrite ilog2_pos by lia.
    assert (1 <= Z.log2 (100 * 100 * (step + 1))); [|lia].
    apply Z.log2_le_pow2; lia. }
  assert (Hq : - d <= d ÷ plays <= -1).
  { replace plays with (- (- plays)) by lia.
    rewrite Z.quot_opp_r by lia.
    rewrite Z.quot_div_nonneg by lia.
    assert (1 <= d / - plays <= d); [|lia].
    split.
    - apply Z.div_le_lower_bound; lia.
    - apply Z.div_le_upper_bound; nia. }
  rewrite to_int_id by (unfold is_int; lia).
  unfold to_ulong.
  replace ((d ÷ plays) mod 2 ^ 64) with (2 ^ 64 + d ÷ plays).
  - apply Z.sqrt_unique. lia.
  - apply Z.mod_unique with (q := -1); lia.
Qed.

Lemma upperBound_negative_plays_witness :
  upperBound 1 (-1) = 4294967295.
Proof. apply (upperBound_negative_plays 1 (-1)); lia. Defined.

End BoundShape.

(** ** What one call of each function leaves behind *)

Section Effects.

Lemma update_cache_scores_effect page mapping_ hit st st' :
  update_cache_scores page mapping_ hit st = Ok st' ->
  st' = st \/
  (hit = true /\
   exists pg, pages st !! page = Some pg /\ mapping pg <> NULL /\
     st' = set_pages (<[page := with_score (hit_score (t st) pg) pg]> (pages st)) st).
Proof.
  destruct hit.
  - unfold update_cache_scores.
    destruct (pages st !! page) as [pg|] eqn:Hp.
    + destruct (N.eq_dec (mapping pg) NULL) as [Hm|Hm].
      * rewrite (update_page_score_null_mapping _ _ _ _ _ Hp Hm).
        intros [= <-]. now left.
      * rewrite (update_page_score_hit _ _ _ _ Hp Hm). intros [= <-].
        right. split; [reflexivity|]. now exists pg.
    + unfold update_page_score. rewrite (load_page_None _ _ Hp). discriminate.
  - destruct (update_cache_scores_miss_cases st page mapping_) as [->| ->];
      [discriminate|]. intros [= <-]. now left.
Qed.

Lemma update_average_effect page st st' :
  update_average page st = Ok st' ->
  exists pg,
    pages st !! page = Some pg /\
    let count := if items_in_cache st =? 0 then -1 else items_in_cache st in
    st' = Machine (hits st) (misses st) (t st)
            (to_long (weight_average st + mlcache_score pg ÷ count)) count
            (pages st) (spaces st) (proc_entry st) (probe_registered st).
Proof.
  unfold update_average. rewrite all_ones_long.
  set (st1 := if items_in_cache st =? 0 then _ else st).
  assert (H1 : st1 = Machine (hits st) (misses st) (t st) (weight_average st)
                 (if items_in_cache st =? 0 then -1 else items_in_cache st)
                 (pages st) (spaces st) (proc_entry st) (probe_registered st)).
  { subst st1. destruct (items_in_cache st =? 0); [reflexivity | now destruct st]. }
  rewrite H1. unfold load_page. cbn [pages].
  destruct (pages st !! page) as [pg|]; [|discriminate].
  rewrite bind_Ok. cbn [items_in_cache weight_average].
  destruct (long_div _ _) as [q|f] eqn:Hq; [|discriminate].
  rewrite bind_Ok. intros [= <-]. exists pg. split; [reflexivity|].
  cbv zeta. unfold long_div in Hq.
  set (c := if items_in_cache st =? 0 then -1 else items_in_cache st) in *.
  destruct (c =? 0); [discriminate|].
  destruct ((mlcache_score pg =? LONG_MIN) && (c =? -1)); [discriminate|].
  injection Hq as <-. reflexivity.
Qed.

(** One delivered event with scoring compiled in. *)
Lemma mlcache_pageget_effect page mapping_ hit st st' :
  page <> NULL ->
  mlcache_pageget true page mapping_ hit st = Ok st' ->
  hits st' = (if hit then to_ulong (hits st + 1) else hits st) /\
  misses st' = (if hit then misses st else to_ulong (misses st + 1)) /\
  t st' = to_ulong (t st + 1) /\
  items_in_cache st' = fold_divisor st /\
  spaces st' = spaces st /\
  proc_entry st' = proc_entry st /\
  probe_registered st' = probe_registered st /\
  (pages st' = pages st \/
   (hit = true /\
    exists pg, pages st !! page = Some pg /\ mapping pg <> NULL /\
      pages st'
      = <[page := with_score (hit_score (to_ulong (t st + 1)) pg) pg]> (pages st))).
Proof.
  intros Hpage. unfold mlcache_pageget.
  destruct (N.eqb_spec page NULL); [contradiction|]. cbv zeta.
  set (st1 := if hit then _ else _).
  set (st2 := set_t _ st1).
  destruct (update_cache_scores page mapping_ hit st2) as [st3|f] eqn:H3;
    [|discriminate].
  rewrite bind_Ok. intros H4.
  apply update_average_effect in H4 as (pg4 & _ & ->). cbv zeta.
  cbn [hits misses t items_in_cache spaces proc_entry probe_registered pages
       set_items_in_cache].
  assert (Hitems : items_in_cache st3 = items_in_cache st).
  { apply update_cache_scores_effect in H3 as [->|(_ & pg & _ & _ & ->)];
      subst st2 st1; now destruct hit. }
  assert (Hfix : hits st3 = (if hit then to_ulong (hits st + 1) else hits st) /\
                 misses st3 = (if hit then misses st else to_ulong (misses st + 1)) /\
                 t st3 = to_ulong (t st + 1) /\ spaces st3 = spaces st /\
                 proc_entry st3 = proc_entry st /\
                 probe_registered st3 = probe_registered st).
  { apply update_cache_scores_effect in H3 as [->|(_ & pg & _ & _ & ->)];
      subst st2 st1; now destruct hit. }
  destruct Hfix as (-> & -> & -> & -> & -> & ->).
  repeat (split; [reflexivity|]).
  split; [unfold fold_divisor; now rewrite Hitems|].
  repeat (split; [reflexivity|]).
  apply update_cache_scores_effect in H3 as [->|(Hh & pg & Hp & Hm & ->)].
  - left. subst st2 st1. now destruct hit.
  - right. split; [exact Hh|]. exists pg. subst hit st2 st1. cbn in *.
    auto.
Qed.

Lemma mlcache_pageget_inactive page mapping_ hit st :
  mlcache_pageget false page mapping_ hit st
  = Ok (if (page =? NULL)%N then st
        else if hit then set_hits (to_ulong (hits st + 1)) st
             else set_misses (to_ulong (misses st + 1)) st).
Proof. unfold mlcache_pageget. now destruct (page =? NULL)%N. Qed.

Lemma to_ulong_range z : is_ulong (to_ulong z).
Proof. unfold is_ulong, to_ulong. apply Z.mod_pos_bound. lia. Qed.

Lemma to_ulong_id z : is_ulong z -> to_ulong z = z.
Proof. unfold is_ulong, to_ulong. intros H. now apply Z.mod_small. Qed.

End Effects.

(** ** One lookup, from the hook down *)

Section OneLookup.

Lemma space_ok_ext st st' mapping_ :
  pages st' = pages st -> spaces st' = spaces st ->
  space_ok st' mapping_ = space_ok st mapping_.
Proof.
  intros Hp Hs. unfold space_ok, tree_ok, slot_ok. now rewrite Hp, Hs.
Qed.

Lemma fold_divisor_run st3 st :
  items_in_cache st3 = items_in_cache st ->
  (if items_in_cache (set_items_in_cache (to_long (items_in_cache st3 + 1)) st3) =? 0
   then -1
   else items_in_cache (set_items_in_cache (to_long (items_in_cache st3 + 1)) st3))
  = fold_divisor st.
Proof. intros H. unfold fold_divisor. cbn. now rewrite H. Qed.

(** A hit on a page with a live mapping, seen from the hook: the hit is
    counted, the round counter advances, the page gets the score of the
    hit update computed with the new round, the item counter takes the
    divisor of the fold and the average gains the quotient of the new
    score by that divisor.  Nothing else changes, and the call returns
    whenever that quotient is a long. *)
Theorem hit_lookup_effect st page mapping_ pg :
  page <> NULL ->
  pages st !! page = Some pg ->
  mapping pg <> NULL ->
  let round := to_ulong (t st + 1) in
  let score' := hit_score round pg in
  ~ (score' = LONG_MIN /\ fold_divisor st = -1) ->
  mlcache_pageget true page mapping_ true st
  = Ok (Machine (to_ulong (hits st + 1)) (misses st) round
          (to_long (weight_average st + score' ÷ fold_divisor st))
          (fold_divisor st)
          (<[page := with_score score' pg]> (pages st))
          (spaces st) (proc_entry st) (probe_registered st)).
Proof.
  intros Hpage Hp Hm round score' Hov. unfold mlcache_pageget.
  destruct (N.eqb_spec page NULL); [contradiction|]. cbv zeta.
  set (st2 := set_t _ _).
  assert (Hp2 : pages st2 !! page = Some pg) by exact Hp.
  unfold update_cache_scores.
  rewrite (update_page_score_hit st2 page _ pg Hp2 Hm), bind_Ok.
  change (to_long (to_long (mlcache_score pg - MLCACHE_SCALE) + _ - _))
    with score'.
  set (st3 := set_pages _ st2).
  set (st4 := set_items_in_cache _ st3).
  assert (Hp4 : pages st4 !! page = Some (with_score score' pg))
    by apply lookup_insert_eq.
  assert (Hd : (if items_in_cache st4 =? 0 then -1 else items_in_cache st4)
               = fold_divisor st) by (apply fold_divisor_run; reflexivity).
  assert (Hi : items_in_cache
                 (if items_in_cache st4 =? 0 then set_items_in_cache (-1) st4 else st4)
               = fold_divisor st).
  { rewrite <- Hd. now destruct (items_in_cache st4 =? 0). }
  rewrite (update_average_run st4 page _ Hp4); cbv zeta; rewrite Hi;
    [|exact Hov].
  f_equal. cbn [with_score mlcache_score].
  destruct (items_in_cache st4 =? 0) eqn:E; cbn in Hd |- *; rewrite <- Hd;
    cbn; rewrite ?E; reflexivity.
Qed.

Lemma hit_lookup_effect_witness :
  mlcache_pageget true 4 Examples.space true Examples.five_items
  = Ok (Machine 1 0 8 5 6
          (<[4%N := Page Examples.space (-90) 1]> (pages Examples.five_items))
          (spaces Examples.five_items) NULL false).
Proof.
  apply (hit_lookup_effect Examples.five_items 4 Examples.space
           (Page Examples.space 10 1)).
  - discriminate.
  - reflexivity.
  - discriminate.
  - intros [H _]. vm_compute in H. discriminate.
Defined.

(** A miss, seen from the hook: the miss is counted, the round counter
    advances, no page is written, and the score the missed page already
    had is folded into the average with the incremented item counter as
    divisor.  The call returns whenever the tree holds valid pointers
    and the quotient is a long. *)
Theorem miss_lookup_effect st page mapping_ pg :
  page <> NULL ->
  pages st !! page = Some pg ->
  space_ok st mapping_ = true ->
  ~ (mlcache_score pg = LONG_MIN /\ fold_divisor st = -1) ->
  mlcache_pageget true page mapping_ false st
  = Ok (Machine (hits st) (to_ulong (misses st + 1)) (to_ulong (t st + 1))
          (to_long (weight_average st + mlcache_score pg ÷ fold_divisor st))
          (fold_divisor st)
          (pages st) (spaces st) (proc_entry st) (probe_registered st)).
Proof.
  intros Hpage Hp Hok Hov. unfold mlcache_pageget.
  destruct (N.eqb_spec page NULL); [contradiction|]. cbv zeta.
  set (st2 := set_t _ _).
  assert (Hok2 : space_ok st2 mapping_ = true)
    by (rewrite <- Hok; now apply space_ok_ext).
  rewrite (update_cache_scores_miss_ok st2 page mapping_ Hok2), bind_Ok.
  set (st4 := set_items_in_cache _ st2).
  assert (Hp4 : pages st4 !! page = Some pg) by exact Hp.
  assert (Hd : (if items_in_cache st4 =? 0 then -1 else items_in_cache st4)
               = fold_divisor st) by (apply fold_divisor_run; reflexivity).
  assert (Hi : items_in_cache
                 (if items_in_cache st4 =? 0 then set_items_in_cache (-1) st4 else st4)
               = fold_divisor st).
  { rewrite <- Hd. now destruct (items_in_cache st4 =? 0). }
  rewrite (update_average_run st4 page _ Hp4); cbv zeta; rewrite Hi;
    [|exact Hov].
  f_equal.
  destruct (items_in_cache st4 =? 0) eqn:E; cbn in Hd |- *; rewrite <- Hd;
    cbn; rewrite ?E; reflexivity.
Qed.

Lemma miss_lookup_effect_witness :
  mlcache_pageget true 4 Examples.space false Examples.five_items
  = Ok (Machine 0 1 8 21 6 (pages Examples.five_items)
          (spaces Examples.five_items) NULL false).
Proof.
  apply (miss_lookup_effect Examples.five_items 4 Examples.space
           (Page Examples.space 10 1)).
  - discriminate.
  - reflexivity.
  - reflexivity.
  - intros [H _]. discriminate.
Defined.

End OneLookup.

(** ** Sequences of lookups *)

Section Sequences.

Lemma mlcache_pageget_counters active page mapping_ hit st st' :
  mlcache_pageget active page mapping_ hit st = Ok st' ->
  let delivered := negb (page =? NULL)%N in
  hits st' = (if delivered && hit then to_ulong (hits st + 1) else hits st) /\
  misses st'
    = (if delivered && negb hit then to_ulong (misses st + 1) else misses st) /\
  t st' = (if delivered && active then to_ulong (t st + 1) else t st) /\
  items_in_cache st'
    = (if delivered && active then fold_divisor st else items_in_cache st).
Proof.
  cbv zeta. destruct (N.eqb_spec page NULL) as [->|Hpage]; cbn [negb andb].
  - cbn. now intros [= <-].
  - destruct active.
    + intros H. apply mlcache_pageget_effect in H as (-> & -> & -> & -> & _);
        [|exact Hpage].
      now destruct hit.
    + rewrite mlcache_pageget_inactive.
      destruct (N.eqb_spec page NULL); [contradiction|].
      intros [= <-]. now destruct hit.
Qed.

Lemma mlcache_pageget_frame active page mapping_ hit st st' :
  mlcache_pageget active page mapping_ hit st = Ok st' ->
  spaces st' = spaces st /\
  forall q,
    mapping <$> pages st' !! q = mapping <$> pages st !! q /\
    mlcache_plays <$> pages st' !! q = mlcache_plays <$> pages st !! q /\
    ((page =? q)%N && hit = false -> pages st' !! q = pages st !! q).
Proof.
  destruct (N.eqb_spec page NULL) as [->|Hpage].
  - cbn. now intros [= <-].
  - destruct active.
    + intros H.
      apply mlcache_pageget_effect in H
        as (_ & _ & _ & _ & Hs & _ & _ & Hpages); [|exact Hpage].
      split; [exact Hs|]. intros q.
      destruct Hpages as [->|(-> & pg & Hp & _ & ->)]; [easy|].
      destruct (N.eqb_spec page q) as [<-|Hne].
      * rewrite lookup_insert_eq, Hp. cbn. easy.
      * rewrite lookup_insert_ne by exact Hne. easy.
    + rewrite mlcache_pageget_inactive.
      destruct (N.eqb_spec page NULL); [contradiction|].
      intros [= <-]. now destruct hit.
Qed.

(** No sequence of lookups moves a page between address spaces or
    touches a play count, a page that is never the subject of a hit
    keeps its record as it is, score included, and the trees are never
    written: the engine only ever writes the score of a page that is
    hit. *)
Theorem lookups_frame active calls st st' :
  lookups active calls st = Ok st' ->
  spaces st' = spaces st /\
  forall q,
    mapping <$> pages st' !! q = mapping <$> pages st !! q /\
    mlcache_plays <$> pages st' !! q = mlcache_plays <$> pages st !! q /\
    (hit_on q calls = false -> pages st' !! q = pages st !! q).
Proof.
  revert st. induction calls as [|[[page mapping_] hit] rest IH]; intros st.
  - intros [= <-]. easy.
  - cbn [lookups].
    destruct (mlcache_pageget active page mapping_ hit st) as [st1|f] eqn:H1;
      [|discriminate].
    rewrite bind_Ok. intros Hrest.
    destruct (IH _ Hrest) as [Hs IHq].
    destruct (mlcache_pageget_frame _ _ _ _ _ _ H1) as [Hs1 H1q].
    split; [congruence|]. intros q.
    destruct (IHq q) as (Hm & Hpl & Hfr). destruct (H1q q) as (Hm1 & Hpl1 & Hfr1).
    split; [congruence|]. split; [congruence|].
    unfold hit_on. cbn [existsb fst snd]. intros Hno.
    apply orb_false_iff in Hno as [Hhere Hlater].
    rewrite (Hfr Hlater). now apply Hfr1.
Qed.

Lemma lookups_frame_witness :
  exists st',
    lookups true [(4%N, Examples.space, true); (2%N, Examples.space, false)]
            Examples.no_entry = Ok st' /\
    mlcache_plays <$> pages st' !! 4%N = Some 0 /\
    pages st' !! 2%N = pages Examples.no_entry !! 2%N.
Proof.
  eexists. split; [vm_compute; reflexivity|].
  match goal with
  | |- context [pages ?s] =>
      destruct (lookups_frame true
                  [(4%N, Examples.space, true); (2%N, Examples.space, false)]
                  Examples.no_entry s) as [_ Hq]
  end.
  - vm_compute. reflexivity.
  - split.
    + destruct (Hq 4%N) as (_ & -> & _). reflexivity.
    + destruct (Hq 2%N) as (_ & _ & Hfr). apply Hfr. reflexivity.
Defined.

Lemma lookups_counters active calls st st' :
  is_ulong (hits st) -> is_ulong (misses st) -> is_ulong (t st) ->
  lookups active calls st = Ok st' ->
  hits st' = to_ulong (hits st + count_hits calls) /\
  misses st' = to_ulong (misses st + count_misses calls) /\
  t st' = (if active
           then to_ulong (t st + (count_hits calls + count_misses calls))
           else t st).
Proof.
  revert st. induction calls as [|[[page mapping_] hit] rest IH];
    intros st Hh Hm Ht.
  - intros [= <-]. cbn [count_hits count_misses].
    rewrite !Z.add_0_r, !to_ulong_id by assumption. now destruct active.
  - cbn [lookups count_hits count_misses].
    destruct (mlcache_pageget active page mapping_ hit st) as [st1|f] eqn:H1;
      [|discriminate].
    rewrite bind_Ok. intros Hrest.
    destruct (mlcache_pageget_counters _ _ _ _ _ _ H1) as (Hh1 & Hm1 & Ht1 & _).
    assert (is_ulong (hits st1) /\ is_ulong (misses st1) /\ is_ulong (t st1))
      as (Rh & Rm & Rt).
    { rewrite Hh1, Hm1, Ht1.
      split; [|split]; repeat (destruct (_ && _)); auto using to_ulong_range. }
    destruct (IH st1 Rh Rm Rt Hrest) as (-> & -> & ->).
    rewrite Hh1, Hm1, Ht1.
    destruct (negb (page =? NULL)%N), hit, active; cbn [andb negb];
      rewrite ?to_ulong_add_l; repeat split; f_equal; lia.
Qed.

(** The counters count.  After a sequence of lookups that returned,
    [hits] has grown by the number of events with a page that reported
    a hit and [misses] by the number that reported a miss, both modulo
    2^64; with scoring compiled in [t] has grown by the number of all
    events with a page, and without it [t] is never written. *)
Theorem lookups_count active calls st st' :
  is_ulong (hits st) -> is_ulong (misses st) -> is_ulong (t st) ->
  lookups active calls st = Ok st' ->
  hits st' = to_ulong (hits st + count_hits calls) /\
  misses st' = to_ulong (misses st + count_misses calls) /\
  t st' = (if active
           then to_ulong (t st + (count_hits calls + count_misses calls))
           else t st).
Proof. apply lookups_counters. Qed.

Lemma lookups_count_witness :
  exists st',
    lookups true [(4%N, Examples.space, true); (NULL, Examples.space, true);
                  (2%N, Examples.space, false)] Examples.no_entry = Ok st' /\
    hits st' = 1 /\ misses st' = 1 /\ t st' = 5.
Proof.
  eexists. split; [vm_compute; reflexivity|].
  match goal with
  | |- context [hits ?s] =>
      destruct (lookups_count true
                  [(4%N, Examples.space, true); (NULL, Examples.space, true);
                   (2%N, Examples.space, false)] Examples.no_entry s)
        as (-> & -> & ->)
  end.
  - unfold is_ulong. cbn. lia.
  - unfold is_ulong. cbn. lia.
  - unfold is_ulong. cbn. lia.
  - vm_compute. reflexivity.
  - repeat split.
Defined.

(** With scoring compiled in, the item counter counts the lookups: from
    a counter that is not negative, and as long as it stays a long, it
    has grown by exactly the number of events with a page.  So the
    guard against a zero divisor does not fire, and the n-th lookup of
    a run from zero divides by n. *)
Theorem lookups_items calls st st' :
  0 <= items_in_cache st ->
  items_in_cache st + (count_hits calls + count_misses calls) <= LONG_MAX ->
  lookups true calls st = Ok st' ->
  items_in_cache st' = items_in_cache st + (count_hits calls + count_misses calls).
Proof.
  assert (Hc : forall l, 0 <= count_hits l /\ 0 <= count_misses l).
  { induction l as [|[[p m] h] l [IHh IHm]]; cbn [count_hits count_misses];
      [lia|]. destruct (negb _), h; cbn [andb negb]; lia. }
  revert st. induction calls as [|[[page mapping_] hit] rest IH];
    intros st H0 Hmax.
  - intros [= <-]. cbn [count_hits count_misses]. lia.
  - cbn [lookups count_hits count_misses] in *.
    destruct (mlcache_pageget true page mapping_ hit st) as [st1|f] eqn:H1;
      [|discriminate].
    rewrite bind_Ok. intros Hrest.
    destruct (mlcache_pageget_counters _ _ _ _ _ _ H1) as (_ & _ & _ & Hi1).
    destruct (Hc rest) as [Hch Hcm].
    assert (Hstep : items_in_cache st1
                    = items_in_cache st
                      + (if negb (page =? NULL)%N then 1 else 0)).
    { rewrite Hi1. destruct (negb (page =? NULL)%N) eqn:E; cbn [andb]; [|lia].
      unfold fold_divisor. cbv zeta.
      assert (Hone : 1 = (if true && hit then 1 else 0)
                         + (if true && negb hit then 1 else 0))
        by now destruct hit.
      unfold LONG_MAX in Hmax.
      rewrite to_long_id by (unfold is_long, LONG_MIN, LONG_MAX; lia).
      destruct (Z.eqb_spec (items_in_cache st + 1) 0); lia. }
    rewrite (IH st1) by
      (try exact Hrest; rewrite Hstep;
       destruct (negb (page =? NULL)%N), hit; cbn [andb negb] in *; lia).
    rewrite Hstep.
    destruct (negb (page =? NULL)%N), hit; cbn [andb negb]; lia.
Qed.

Lemma lookups_items_witness :
  exists st',
    lookups true [(4%N, Examples.space, true); (4%N, Examples.space, false)]
            Examples.five_items = Ok st' /\
    items_in_cache st' = 7.
Proof.
  eexists. split; [vm_compute; reflexivity|].
  match goal with
  | |- items_in_cache ?s = _ =>
      rewrite (lookups_items
                 [(4%N, Examples.space, true); (4%N, Examples.space, false)]
                 Examples.five_items s)
  end.
  - reflexivity.
  - cbn. lia.
  - cbn. unfold LONG_MAX. lia.
  - vm_compute. reflexivity.
Defined.

(** Without scoring compiled in, every sequence of lookups returns: it
    only counts hits and misses, reads no page and no tree, so that
    dangling pointers do no harm, leaves every other part of the state
    as it was, and the accessor of the average answers 0. *)
Theorem lookups_inactive calls st :
  is_ulong (hits st) -> is_ulong (misses st) ->
  exists st',
    lookups false calls st = Ok st' /\
    hits st' = to_ulong (hits st + count_hits calls) /\
    misses st' = to_ulong (misses st + count_misses calls) /\
    st' = set_misses (misses st') (set_hits (hits st') st) /\
    get_mlcache_weighted_average false st' = 0.
Proof.
  revert st. induction calls as [|[[page mapping_] hit] rest IH]; intros st Hh Hm.
  - exists st. cbn [lookups count_hits count_misses].
    rewrite !Z.add_0_r, !to_ulong_id by assumption.
    repeat split. now destruct st.
  - cbn [lookups count_hits count_misses].
    rewrite mlcache_pageget_inactive, bind_Ok.
    set (st1 := if (page =? NULL)%N then st else _).
    assert (is_ulong (hits st1) /\ is_ulong (misses st1)) as [Rh Rm].
    { subst st1. split; destruct (page =? NULL)%N, hit; cbn [hits misses set_hits set_misses];
        auto using to_ulong_range. }
    destruct (IH st1 Rh Rm) as (st' & Hrun & Hh' & Hm' & Hst & Hget).
    exists st'. split; [exact Hrun|].
    split; [|split; [|split; [|exact Hget]]].
    + rewrite Hh'. subst st1.
      destruct (page =? NULL)%N, hit; cbn [negb andb hits set_hits set_misses];
        rewrite ?to_ulong_add_l; f_equal; lia.
    + rewrite Hm'. subst st1.
      destruct (page =? NULL)%N, hit; cbn [negb andb misses set_hits set_misses];
        rewrite ?to_ulong_add_l; f_equal; lia.
    + rewrite Hst at 1. subst st1.
      now destruct (page =? NULL)%N, hit.
Qed.

Lemma lookups_inactive_witness :
  exists st',
    lookups false [(77%N, 78%N, true); (77%N, NULL, false); (77%N, 78%N, true)]
            Examples.no_entry = Ok st' /\
    hits st' = 2 /\ misses st' = 1.
Proof.
  destruct (lookups_inactive
              [(77%N, 78%N, true); (77%N, NULL, false); (77%N, 78%N, true)]
              Examples.no_entry) as (st' & Hrun & Hh & Hm & _).
  - unfold is_ulong. cbn. lia.
  - unfold is_ulong. cbn. lia.
  - exists st'. repeat split; assumption.
Defined.

End Sequences.

(** ** What the traversals visit *)

Section Visits.

Lemma to_uint_add_l a b : to_uint (to_uint a + b) = to_uint (a + b).
Proof. unfold to_uint. apply Zplus_mod_idemp_l. Qed.

Lemma penalize_pages_loop_count st tree page checked :
  tree_ok st tree = true ->
  penalize_pages_loop tree page (to_uint checked) st
  = Ok (to_uint (checked + shadow_others st page tree), st).
Proof.
  revert checked. induction tree as [|s rest IH]; intros checked Hok.
  - cbn. now rewrite Z.add_0_r.
  - apply tree_ok_cons in Hok as [Hs Hrest].
    assert (IH' := fun c => IH c Hrest). clear IH. rename IH' into IH.
    destruct s as [| r | p]; cbn [penalize_pages_loop shadow_others is_shadow_other];
      try (now rewrite IH).
    destruct (slot_ok_page _ _ Hs) as [pg Hp].
    rewrite (load_page_Some _ _ _ Hp), bind_Ok, Hp.
    destruct (N.eqb_spec (mapping pg) NULL) as [Hm|Hm]; cbn [negb andb];
      [|now rewrite IH].
    destruct (N.eqb_spec p page); cbn [negb]; [now rewrite IH|].
    rewrite (update_page_score_null_mapping _ _ _ _ _ Hp Hm), bind_Ok.
    rewrite yield_same, to_uint_add_l, IH.
    now rewrite <- Z.add_assoc.
Qed.

Lemma update_cache_scores_loop_count st tree page pg checked :
  pages st !! page = Some pg -> mapping pg <> NULL ->
  tree_ok st tree = true ->
  update_cache_scores_loop tree page (to_uint checked) st
  = Ok (false, to_uint (checked + shadow_others st page tree), st).
Proof.
  intros Hpage Hlive. revert checked.
  induction tree as [|s rest IH]; intros checked Hok.
  - cbn. now rewrite Z.add_0_r.
  - apply tree_ok_cons in Hok as [Hs Hrest].
    assert (IH' := fun c => IH c Hrest). clear IH. rename IH' into IH.
    destruct s as [| r | p];
      cbn [update_cache_scores_loop shadow_others is_shadow_other];
      try (now rewrite IH).
    destruct (slot_ok_page _ _ Hs) as [pg' Hp].
    rewrite (load_page_Some _ _ _ Hp), bind_Ok, Hp.
    destruct (N.eqb_spec (mapping pg') NULL) as [Hm|Hm]; cbn [negb andb];
      [|now rewrite IH].
    destruct (N.eqb_spec p page) as [->|_]; [congruence|]. cbn [negb].
    rewrite (update_page_score_null_mapping _ _ _ _ _ Hp Hm), bind_Ok.
    rewrite yield_same, to_uint_add_l, IH.
    now rewrite <- Z.add_assoc.
Qed.

(** The second pass goes through the whole tree and hands to
    [update_page_score] exactly the entries that have no mapping and
    are not the missed page: [checked] ends as their number, modulo
    2^32, and the state is the one the pass started from. *)
Theorem penalize_pass_visits st page tree :
  tree_ok st tree = true ->
  penalize_pages_loop tree page 0 st
  = Ok (to_uint (shadow_others st page tree), st).
Proof. intros Hok. apply (penalize_pages_loop_count st tree page 0 Hok). Qed.

Lemma penalize_pass_visits_witness :
  penalize_pages_loop [SlotPage 2; SlotPage 1; SlotPage 3] 1 0
    Examples.shadow_found
  = Ok (2, Examples.shadow_found).
Proof.
  apply (penalize_pass_visits Examples.shadow_found 1
           [SlotPage 2; SlotPage 1; SlotPage 3]).
  reflexivity.
Defined.

(** When the missed page is resident (it has a mapping), the first
    traversal never finds it, even if the tree holds it: it runs to the
    end of the tree, hands every entry without mapping to
    [update_page_score], and leaves [penalize] clear, so the second
    pass is not run. *)
Theorem first_scan_of_resident_page st page tree pg :
  pages st !! page = Some pg ->
  mapping pg <> NULL ->
  tree_ok st tree = true ->
  update_cache_scores_loop tree page 0 st
  = Ok (false, to_uint (shadow_others st page tree), st).
Proof.
  intros Hp Hm Hok.
  apply (update_cache_scores_loop_count st tree page pg 0 Hp Hm Hok).
Qed.

Lemma first_scan_of_resident_page_witness :
  update_cache_scores_loop [SlotPage 2; SlotException false] 4 0
    Examples.no_entry
  = Ok (false, 1, Examples.no_entry).
Proof.
  apply (first_scan_of_resident_page Examples.no_entry 4
           [SlotPage 2; SlotException false] (Page Examples.space 0 0)).
  - reflexivity.
  - discriminate.
  - reflexivity.
Defined.

End Visits.

(** ** How scores and the average move *)

Section Movement.

Lemma to_long_sub_l a b : to_long (to_long a - b) = to_long (a - b).
Proof.
  replace (to_long a - b) with (to_long a + (- b)) by lia.
  rewrite to_long_add_l. f_equal; lia.
Qed.

Lemma hit_score_unplayed round pg :
  mlcache_plays pg = 0 -> hit_score round pg = to_long (mlcache_score pg - 100).
Proof.
  intros H0. unfold hit_score, MLCACHE_SCALE. rewrite H0.
  change (to_int 0) with 0. rewrite !upperBound_plays_0.
  rewrite to_long_add_sub_l. f_equal. lia.
Qed.

Lemma mlcache_pageget_hit_pages st st' page mapping_ pg :
  page <> NULL -> pages st !! page = Some pg -> mapping pg <> NULL ->
  mlcache_pageget true page mapping_ true st = Ok st' ->
  pages st'
  = <[page := with_score (hit_score (to_ulong (t st + 1)) pg) pg]> (pages st).
Proof.
  intros Hpage Hp Hm. unfold mlcache_pageget.
  destruct (N.eqb_spec page NULL); [contradiction|]. cbv zeta.
  set (st2 := set_t _ _).
  assert (Hp2 : pages st2 !! page = Some pg) by exact Hp.
  unfold update_cache_scores.
  rewrite (update_page_score_hit st2 page _ pg Hp2 Hm), bind_Ok.
  intros H. apply update_average_effect in H as (pg4 & _ & ->).
  reflexivity.
Qed.

(** Hits on a page that was never played only subtract the reward: the
    bonus terms vanish with a play count of 0, and since the module
    never writes the play count, k hits in a row leave the score
    100 * k lower (as a long), whatever the round counter is. *)
Theorem repeated_hits_unplayed k st st' page mapping_ pg :
  page <> NULL ->
  pages st !! page = Some pg ->
  mapping pg <> NULL ->
  mlcache_plays pg = 0 ->
  is_long (mlcache_score pg) ->
  lookups true (repeat (page, mapping_, true) k) st = Ok st' ->
  pages st' !! page
  = Some (with_score (to_long (mlcache_score pg - 100 * Z.of_nat k)) pg).
Proof.
  intros Hpage. revert st pg.
  induction k as [|k IH]; intros st pg Hp Hm H0 Hs.
  - cbn [repeat lookups]. intros [= <-].
    rewrite Hp, Z.sub_0_r, to_long_id by exact Hs. now destruct pg.
  - cbn [repeat lookups].
    destruct (mlcache_pageget true page mapping_ true st) as [st1|f] eqn:H1;
      [|discriminate].
    rewrite bind_Ok. intros Hrest.
    pose proof (mlcache_pageget_hit_pages _ _ _ _ _ Hpage Hp Hm H1) as Hpages.
    rewrite (hit_score_unplayed _ _ H0) in Hpages.
    set (pg1 := with_score (to_long (mlcache_score pg - 100)) pg) in *.
    assert (Hp1 : pages st1 !! page = Some pg1)
      by (rewrite Hpages; apply lookup_insert_eq).
    rewrite (IH st1 pg1 Hp1 Hm H0 (to_long_range _) Hrest).
    subst pg1. unfold with_score. cbn [mapping mlcache_score mlcache_plays].
    rewrite to_long_sub_l. do 3 f_equal. lia.
Qed.

Lemma repeated_hits_unplayed_witness :
  exists st',
    lookups true (repeat (4%N, Examples.space, true) 3) (Examples.first_lookup 0)
    = Ok st' /\
    pages st' !! 4%N = Some (Page Examples.space (-300) 0).
Proof.
  eexists. split; [vm_compute; reflexivity|].
  match goal with
  | |- pages ?s !! _ = _ =>
      apply (repeated_hits_unplayed 3 (Examples.first_lookup 0) s 4
               Examples.space (Page Examples.space 0 0))
  end.
  - discriminate.
  - reflexivity.
  - discriminate.
  - reflexivity.
  - unfold is_long, LONG_MIN, LONG_MAX. cbn. lia.
  - vm_compute. reflexivity.
Defined.

(** In the operating range a hit lowers the score: for a round counter
    between 1 and 429495 and a play count that is an int and not
    negative, the score after the hit is at most the old score less
    100, and at least the old score less 100 + 787 * plays, provided
    that lower value is still a long. *)
Theorem hit_lowers_score st page mapping_ pg :
  pages st !! page = Some pg ->
  mapping pg <> NULL ->
  1 <= t st <= 429495 ->
  0 <= mlcache_plays pg < 2 ^ 31 ->
  LONG_MIN + 100 + 787 * mlcache_plays pg <= mlcache_score pg <= LONG_MAX ->
  exists st' pg',
    update_cache_scores page mapping_ true st = Ok st' /\
    pages st' !! page = Some pg' /\
    mlcache_score pg - 100 - 787 * mlcache_plays pg
      <= mlcache_score pg' <= mlcache_score pg - 100.
Proof.
  intros Hp Hm Ht Hpl Hs.
  unfold update_cache_scores.
  rewrite (update_page_score_hit st page _ pg Hp Hm).
  eexists _, _. split; [reflexivity|]. cbn [pages set_pages].
  split; [apply lookup_insert_eq|]. cbn [with_score mlcache_score].
  unfold MLCACHE_SCALE. rewrite to_long_add_sub_l.
  set (p := mlcache_plays pg) in *.
  assert (Hti : to_int (t st) = t st) by (apply to_int_id; unfold is_int; lia).
  assert (Htp : to_int (to_ulong (t st - 1)) = t st - 1).
  { unfold to_ulong. rewrite Z.mod_small by lia.
    apply to_int_id. unfold is_int. lia. }
  assert (Hpi : to_int p = p) by (apply to_int_id; unfold is_int; lia).
  rewrite Hti, Htp, Hpi.
  assert (Hb : 0 <= upperBound (t st - 1) p <= upperBound (t st) p * p /\
               upperBound (t st) p * p <= 787 * p).
  { destruct (Z.eq_dec p 0) as [->|Hp0].
    - rewrite !upperBound_plays_0. lia.
    - pose proof (upperBound_nonneg (t st - 1) p).
      pose proof (upperBound_nonneg (t st) p).
      pose proof (upperBound_le_787 (t st) p ltac:(lia) ltac:(lia)).
      assert (upperBound (t st - 1) p <= upperBound (t st) p).
      { destruct (Z.eq_dec (t st) 1) as [->|].
        - change (1 - 1) with 0. rewrite upperBound_step_0. apply upperBound_nonneg.
        - apply upperBound_step_le; lia. }
      nia. }
  unfold LONG_MIN, LONG_MAX in Hs.
  rewrite to_long_id by (unfold is_long, LONG_MIN, LONG_MAX; lia).
  lia.
Qed.

Lemma hit_lowers_score_witness :
  exists st' pg',
    update_cache_scores 4 Examples.space true Examples.five_items = Ok st' /\
    pages st' !! 4%N = Some pg' /\
    10 - 100 - 787 * 1 <= mlcache_score pg' <= 10 - 100.
Proof.
  apply (hit_lowers_score Examples.five_items 4 Examples.space
           (Page Examples.space 10 1)).
  - reflexivity.
  - discriminate.
  - cbn. lia.
  - cbn. lia.
  - unfold LONG_MIN, LONG_MAX. cbn. lia.
Defined.

(** Folding a page whose score is smaller in magnitude than the item
    counter changes nothing: the quotient truncates to 0, so the
    average stays where it is.  Once more lookups have been counted
    than the scores are large, the average no longer moves. *)
Theorem update_average_small_score st page pg :
  pages st !! page = Some pg ->
  is_long (weight_average st) ->
  Z.abs (mlcache_score pg) < Z.abs (items_in_cache st) ->
  update_average page st = Ok st.
Proof.
  intros Hp Hw Hsmall.
  assert (Hi : items_in_cache st <> 0) by lia.
  rewrite (update_average_run st page pg Hp); cbv zeta;
    destruct (Z.eqb_spec (items_in_cache st) 0); try contradiction.
  - rewrite (proj2 (Z.quot_small_iff _ _ Hi)) by exact Hsmall.
    rewrite Z.add_0_r, to_long_id by exact Hw. now destruct st.
  - intros [Hmin Hone]. rewrite Hmin, Hone in Hsmall.
    unfold LONG_MIN in Hsmall. cbn in Hsmall. lia.
Qed.

Lemma update_average_small_score_witness :
  update_average 4 (set_items_in_cache 11 Examples.five_items)
  = Ok (set_items_in_cache 11 Examples.five_items).
Proof.
  apply (update_average_small_score (set_items_in_cache 11 Examples.five_items)
           4 (Page Examples.space 10 1)).
  - reflexivity.
  - unfold is_long, LONG_MIN, LONG_MAX. cbn. lia.
  - cbn. lia.
Defined.

End Movement.

(** ** The report of the status file *)

Section Report.

Lemma is_number_char_pretty x : is_number_char (pretty_N_char x) = true.
Proof. unfold pretty_N_char. now repeat case_match. Qed.

Lemma number_text_pretty_N_go x s :
  number_text s = true -> number_text (pretty_N_go x s) = true.
Proof.
  revert s. induction (N.lt_wf_0 x) as [x _ IH]; intros s Hs.
  destruct (N.eq_dec x 0%N) as [->|Hx].
  - now rewrite pretty_N_go_0.
  - rewrite pretty_N_go_step by lia. apply IH.
    + apply N.div_lt; lia.
    + cbn [number_text]. now rewrite is_number_char_pretty.
Qed.

Lemma number_text_pretty_Z (z : Z) : number_text (pretty z) = true.
Proof.
  assert (Hp : forall p : positive, number_text (pretty p) = true).
  { intros p. unfold pretty, pretty_positive, pretty, pretty_N.
    case_decide; [reflexivity|]. now apply number_text_pretty_N_go. }
  destruct z as [|p|p]; cbn; [reflexivity | apply Hp |].
  apply Hp.
Qed.

(** A number followed by a character that no number holds can be cut
    off in one way only. *)
Lemma number_text_cut a a' c r r' :
  number_text a = true -> number_text a' = true ->
  is_number_char c = false ->
  a +:+ String c r = a' +:+ String c r' -> a = a' /\ r = r'.
Proof.
  intros Ha Ha' Hc. revert a' Ha'.
  induction a as [|x a IH]; intros [|x' a'] Ha'; cbn; intros Heq.
  - now injection Heq as <-.
  - injection Heq as <- _. cbn in Ha'. rewrite Hc in Ha'. discriminate.
  - injection Heq as -> _. cbn in Ha. rewrite Hc in Ha. discriminate.
  - injection Heq as <- Heq. cbn in Ha, Ha'.
    apply andb_true_iff in Ha as [_ Ha]. apply andb_true_iff in Ha' as [_ Ha'].
    destruct (IH Ha a' Ha' Heq) as [-> ->]. easy.
Qed.

Lemma to_long_inj a b :
  is_ulong a -> is_ulong b -> to_long a = to_long b -> a = b.
Proof.
  intros Ha Hb H.
  rewrite <- (to_ulong_id a Ha), <- (to_ulong_id b Hb).
  rewrite <- (to_ulong_to_long a), <- (to_ulong_to_long b). now rewrite H.
Qed.

(** The report tells the counters apart: two states whose reports are
    the same text have the same [hits] and the same [misses].  What is
    printed is the counter read as a long, so that a counter above
    2^63 - 1 shows as a negative number, and still as a different one
    for each value. *)
Theorem report_determines_counters st1 st2 m :
  is_ulong (hits st1) -> is_ulong (misses st1) ->
  is_ulong (hits st2) -> is_ulong (misses st2) ->
  snd (mlcache_hits_show st1 m) = snd (mlcache_hits_show st2 m) ->
  hits st1 = hits st2 /\ misses st1 = misses st2.
Proof.
  intros Hh1 Hm1 Hh2 Hm2. unfold mlcache_hits_show. cbn [snd]. intros Heq.
  apply (inj (String.app m)) in Heq.
  apply (inj (String.app "Hits: ")) in Heq.
  apply number_text_cut in Heq as [Hhits Heq];
    [| apply number_text_pretty_Z | apply number_text_pretty_Z | reflexivity].
  apply (inj (String.app "| Misses: ")) in Heq.
  apply number_text_cut in Heq as [Hmisses _];
    [| apply number_text_pretty_Z | apply number_text_pretty_Z | reflexivity].
  apply (inj pretty) in Hhits. apply (inj pretty) in Hmisses.
  split; now apply to_long_inj.
Qed.

Lemma report_determines_counters_witness :
  hits Examples.five_items = hits Examples.no_entry /\
  misses Examples.five_items = misses Examples.no_entry.
Proof.
  apply (report_determines_counters Examples.five_items Examples.no_entry "").
  - unfold is_ulong. cbn. lia.
  - unfold is_ulong. cbn. lia.
  - unfold is_ulong. cbn. lia.
  - unfold is_ulong. cbn. lia.
  - reflexivity.
Defined.

(** After a successful start, the report shows what the hook has seen:
    once a sequence of lookups has returned, the text added to the file
    is "Hits: h | Misses: m" and a line feed, where h and m are the
    numbers of events with a page that reported a hit and a miss, as
    long as both are below 2^63. *)
Theorem report_after_lookups active entry st0 calls st' m :
  entry <> NULL ->
  is_ulong (t st0) ->
  count_hits calls < 2 ^ 63 ->
  count_misses calls < 2 ^ 63 ->
  lookups active calls (snd (mlcache_init active entry st0)) = Ok st' ->
  mlcache_hits_show st' m
  = (0, m +:+ "Hits: " +:+ pretty (count_hits calls)
          +:+ " | Misses: " +:+ pretty (count_misses calls) +:+ newline).
Proof.
  intros Hentry Ht Hh Hm Hrun.
  assert (Hc : forall l, 0 <= count_hits l /\ 0 <= count_misses l).
  { induction l as [|[[p q] h] l [IHh IHm]]; cbn [count_hits count_misses];
      [lia|]. destruct (negb _), h; cbn [andb negb]; lia. }
  destruct (Hc calls) as [Hh0 Hm0].
  set (st1 := snd (mlcache_init active entry st0)) in *.
  assert (H1 : hits st1 = 0 /\ misses st1 = 0 /\ is_ulong (t st1)).
  { subst st1. unfold mlcache_init.
    destruct (N.eqb_spec entry NULL); [contradiction|].
    destruct active; cbn; unfold is_ulong in *; repeat split; lia. }
  destruct H1 as (Hh1 & Hm1 & Ht1).
  destruct (lookups_counters active calls st1 st') as (Hhits & Hmisses & _);
    try assumption; try (rewrite ?Hh1, ?Hm1; unfold is_ulong; lia).
  unfold mlcache_hits_show. rewrite Hhits, Hmisses, Hh1, Hm1, !Z.add_0_l.
  rewrite !to_long_to_ulong.
  rewrite !to_long_id by (unfold is_long, LONG_MIN, LONG_MAX; lia).
  reflexivity.
Qed.

Lemma report_after_lookups_witness :
  exists st',
    lookups true [(4%N, Examples.space, true); (NULL, Examples.space, true);
                  (2%N, Examples.space, false); (4%N, NULL, true)]
      (snd (mlcache_init true 5 (set_hits 40 Examples.no_entry))) = Ok st' /\
    mlcache_hits_show st' "" = (0, "Hits: 2 | Misses: 1" +:+ newline).
Proof.
  eexists. split; [vm_compute; reflexivity|].
  match goal with
  | |- mlcache_hits_show ?s _ = _ =>
      apply (report_after_lookups true 5 (set_hits 40 Examples.no_entry)
               [(4%N, Examples.space, true); (NULL, Examples.space, true);
                (2%N, Examples.space, false); (4%N, NULL, true)] s "")
  end.
  - discriminate.
  - unfold is_ulong. cbn. lia.
  - cbn. lia.
  - cbn. lia.
  - vm_compute. reflexivity.
Defined.

End Report.

(** ** Faults of the fold, and the flag of the first traversal *)

Section Edges.

(** The fold stops on a fault in two cases only: the page pointer names
    no page, or the score is the least long while the counter is 0 or
    -1, which makes the divisor -1 and the quotient 2^63. *)
Theorem update_average_faults st page :
  (update_average page st = Fault BadPointer <-> pages st !! page = None) /\
  (forall pg, pages st !! page = Some pg ->
     (update_average page st = Fault DivideOverflow <->
      mlcache_score pg = LONG_MIN /\
      (items_in_cache st = 0 \/ items_in_cache st = -1))).
Proof.
  unfold update_average. rewrite all_ones_long.
  set (st1 := if items_in_cache st =? 0 then _ else st).
  assert (Hp1 : pages st1 = pages st)
    by (subst st1; now destruct (items_in_cache st =? 0)).
  assert (Hi1 : items_in_cache st1
                = if items_in_cache st =? 0 then -1 else items_in_cache st)
    by (subst st1; now destruct (items_in_cache st =? 0)).
  unfold load_page. rewrite Hp1, Hi1. clearbody st1.
  set (c := if items_in_cache st =? 0 then -1 else items_in_cache st).
  assert (Hc : c <> 0 /\
               (c = -1 <-> items_in_cache st = 0 \/ items_in_cache st = -1)).
  { subst c. destruct (Z.eqb_spec (items_in_cache st) 0); lia. }
  destruct Hc as [Hc0 Hc1].
  split.
  - destruct (pages st !! page) as [pg|]; [|easy].
    rewrite bind_Ok. unfold long_div.
    destruct (Z.eqb_spec c 0); [contradiction|].
    destruct (_ && _); cbn; split; discriminate.
  - intros pg ->. rewrite bind_Ok. unfold long_div.
    destruct (Z.eqb_spec c 0); [contradiction|].
    destruct (Z.eqb_spec (mlcache_score pg) LONG_MIN) as [Hs|Hs];
      destruct (Z.eqb_spec c (-1)) as [He|He]; cbn; split;
      try discriminate; try reflexivity; try tauto.
Qed.

(** When the first traversal of a miss comes to the missed page's own
    entry and its score is not 0, it stops there with [penalize] set,
    in the state it started from: what the tree holds behind the entry
    is left to the second pass. *)
Theorem miss_nonzero_shadow_sets_penalize st page pre pg :
  tree_ok st pre = true ->
  pages st !! page = Some pg ->
  mapping pg = NULL ->
  mlcache_score pg <> 0 ->
  exists c, forall behind,
    update_cache_scores_loop (pre ++ SlotPage page :: behind) page 0 st
    = Ok (true, c, st).
Proof.
  intros Hok Hp Hnull Hscore.
  destruct (update_cache_scores_loop_found st pre page pg 0 Hok Hp Hnull)
    as [c Hc].
  exists c. intros behind. rewrite Hc.
  destruct (Z.eqb_spec (mlcache_score pg) 0); [contradiction | reflexivity].
Qed.

Lemma miss_nonzero_shadow_sets_penalize_witness :
  exists c, forall behind,
    update_cache_scores_loop ([SlotPage 2] ++ SlotPage 1 :: behind) 1 0
      Examples.shadow_found
    = Ok (true, c, Examples.shadow_found).
Proof.
  apply (miss_nonzero_shadow_sets_penalize Examples.shadow_found 1
           [SlotPage 2] (Page NULL 5 0)).
  - reflexivity.
  - reflexivity.
  - reflexivity.
  - discriminate.
Defined.

End Edges.
